(** * Deal structure valuation engine

    A shallow embedding of [client/src/lib/financial-calculations.ts] (the
    amortization and time-value primitives, the five structure calculators
    and the dispatcher), of the comparison loop [calculateDeals] and the
    deal-type handler of the calculator page, of the lookup of the results
    panel, of the datasets of the cash-flow chart and of the validation and
    editing of the input form, followed by the properties of the
    specification and further properties of the code.

    JavaScript numbers are modelled by [number]: exact rationals extended
    with the three special values of IEEE arithmetic that the code can reach
    (a division by zero yields an infinity or NaN, it never throws).
    Rounding, overflow and the sign of zero are not modelled in [number];
    decimal literals such as [0.6] stand for the exact fraction.  The
    results of the arithmetic operations are kept in lowest terms ([Qred]),
    so that schedules can be evaluated on concrete inputs.

    The code computes in binary64.  The properties of the schedules are
    therefore stated so that rounding does not bear on them: as equalities
    between amounts the code obtains by the same operations in the same
    order (which hold whatever the numbers are, NaN included), as
    [same_value], and as orderings on inputs of an everyday scale
    ([everyday_inputs]).  Where binary64 itself decides the outcome, the
    underflow of a product or the rounding of a sum, the expressions are
    given over [float] (the amounts in binary64) and evaluated there. *)

From Stdlib Require Import Floats.
From Stdlib Require Import ZArith QArith Qminmax Qabs Qpower Qfield Qround.
From Stdlib Require Import Lqa Lia List Bool String DecimalString.
Import ListNotations.

Set Implicit Arguments.
Set Warnings "-inexact-float".

(* ================================================================= *)
(** ** Numbers *)

Inductive number : Type :=
| Fin (q : Q)
| PosInf
| NegInf
| NaN.

Arguments Fin q%_Q.

Declare Scope num_scope.
Delimit Scope num_scope with num.
Bind Scope num_scope with number.

Definition Qlt_bool (a b : Q) : bool := negb (Qle_bool b a).

Definition inf_of_sign (positive : bool) : number :=
  if positive then PosInf else NegInf.

Definition of_Z (z : Z) : number := Fin (inject_Z z).

(** A finite value in lowest terms. *)
Definition fin (q : Q) : number := Fin (Qred q).

Definition num_neg (x : number) : number :=
  match x with
  | Fin q => Fin (- q)
  | PosInf => NegInf
  | NegInf => PosInf
  | NaN => NaN
  end.

Definition num_add (x y : number) : number :=
  match x, y with
  | NaN, _ | _, NaN => NaN
  | Fin a, Fin b => fin (a + b)
  | PosInf, NegInf | NegInf, PosInf => NaN
  | PosInf, _ | _, PosInf => PosInf
  | NegInf, _ | _, NegInf => NegInf
  end.

Definition num_sub (x y : number) : number := num_add x (num_neg y).

Definition num_mul (x y : number) : number :=
  match x, y with
  | NaN, _ | _, NaN => NaN
  | Fin a, Fin b => fin (a * b)
  | Fin a, PosInf | PosInf, Fin a =>
      if Qeq_bool a 0 then NaN else inf_of_sign (Qlt_bool 0 a)
  | Fin a, NegInf | NegInf, Fin a =>
      if Qeq_bool a 0 then NaN else inf_of_sign (Qlt_bool a 0)
  | PosInf, PosInf | NegInf, NegInf => PosInf
  | PosInf, NegInf | NegInf, PosInf => NegInf
  end.

Definition num_div (x y : number) : number :=
  match x, y with
  | NaN, _ | _, NaN => NaN
  | Fin a, Fin b =>
      if Qeq_bool b 0
      then (if Qeq_bool a 0 then NaN else inf_of_sign (Qlt_bool 0 a))
      else fin (a / b)
  | Fin _, _ => Fin 0
  | PosInf, Fin b => inf_of_sign (Qle_bool 0 b)
  | NegInf, Fin b => inf_of_sign (Qlt_bool b 0)
  | _, _ => NaN
  end.

(** [Math.min] *)
Definition num_min (x y : number) : number :=
  match x, y with
  | NaN, _ | _, NaN => NaN
  | NegInf, _ | _, NegInf => NegInf
  | PosInf, z | z, PosInf => z
  | Fin a, Fin b => Fin (Qmin a b)
  end.

(** [Math.abs] *)
Definition num_abs (x : number) : number :=
  match x with
  | Fin q => Fin (Qabs q)
  | PosInf | NegInf => PosInf
  | NaN => NaN
  end.

(** [x < y]: false as soon as one side is NaN. *)
Definition num_ltb (x y : number) : bool :=
  match x, y with
  | NaN, _ | _, NaN => false
  | Fin a, Fin b => Qlt_bool a b
  | NegInf, NegInf | PosInf, _ => false
  | NegInf, _ => true
  | Fin _, PosInf => true
  | Fin _, NegInf => false
  end.

(** [x <= y] *)
Definition num_leb (x y : number) : bool :=
  match x, y with
  | NaN, _ | _, NaN => false
  | Fin a, Fin b => Qle_bool a b
  | NegInf, _ | _, PosInf => true
  | PosInf, _ => false
  | Fin _, NegInf => false
  end.

(** [x === y]: NaN is equal to nothing, itself included. *)
Definition num_eqb (x y : number) : bool :=
  match x, y with
  | Fin a, Fin b => Qeq_bool a b
  | PosInf, PosInf | NegInf, NegInf => true
  | _, _ => false
  end.

(** Truthiness of a number, as [||] tests it: [0] and NaN are falsy. *)
Definition truthy (x : number) : bool :=
  match x with
  | Fin q => negb (Qeq_bool q 0)
  | PosInf | NegInf => true
  | NaN => false
  end.

(** [a || b] on numbers *)
Definition num_or (a b : number) : number := if truthy a then a else b.

Definition pow_pos (x : number) (p : positive) : number :=
  match x with
  | Fin q => Fin (Qpower_positive q p)
  | PosInf => PosInf
  | NegInf => match p with xO _ => PosInf | _ => NegInf end
  | NaN => NaN
  end.

(** [Math.pow] at an integer exponent *)
Definition num_pow (x : number) (n : Z) : number :=
  match n with
  | Z0 => Fin 1
  | Zpos p => pow_pos x p
  | Zneg p => num_div (Fin 1) (pow_pos x p)
  end.

Definition is_NaN (x : number) : bool :=
  match x with NaN => true | _ => false end.

Definition is_finite (x : number) : bool :=
  match x with Fin _ => true | _ => false end.

Infix "+" := num_add : num_scope.
Infix "-" := num_sub : num_scope.
Infix "*" := num_mul : num_scope.
Infix "/" := num_div : num_scope.
Notation "- x" := (num_neg x) : num_scope.
Infix "===" := num_eqb (at level 70, no associativity) : num_scope.

(* ================================================================= *)
(** ** Data model ([types/deal-types.ts]) *)

Inductive DealType : Type :=
| all_cash
| earn_out
| seller_financing
| sba_loan
| custom.

(** [termLength] is an integer, as the preconditions require; an optional
    field is [None] when it is absent ([undefined]). *)
Record DealInputs : Type := {
  purchasePrice : number;
  termLength : Z;
  interestRate : number;
  taxRate : number;
  equityRetained : number;
  downPayment : option number;
  balloonPayment : option number
}.

Record CashFlowRow : Type := {
  year : Z;
  principal : number;
  interest : number;
  equityReturns : number;
  preTaxTotal : number;
  taxImpact : number;
  netCashFlow : number;
  cumulative : number
}.

Record DealResults : Type := {
  totalInvestment : number;
  netProceeds : number;
  roi : number;
  irr : number;
  cashFlow : list CashFlowRow;
  npv : number
}.

Record ComparisonData : Type := {
  dealType : DealType;
  label : string;
  results : DealResults;
  color : string
}.

(* ================================================================= *)
(** ** Exceptions and loops *)

Inductive exn : Type :=
| RangeError (msg : string).

Inductive result (A : Type) : Type :=
| Ok (a : A)
| Throw (e : exn).

Arguments Ok {A} a.
Arguments Throw {A} e.

(** [Array(n).fill(v)] for an integer [n]: a negative length throws. *)
Definition Array_fill (n : Z) (v : number) : result (list number) :=
  if (n <? 0)%Z then Throw (RangeError "Invalid array length")
  else Ok (repeat v (Z.to_nat n)).

(** [for (year = y; ...; year++) { body }] run for at most [n] iterations;
    the body returns the new state and whether it hit [break]. *)
Fixpoint for_loop {S : Type} (n : nat) (y : Z) (body : Z -> S -> S * bool)
    (s : S) : S :=
  match n with
  | O => s
  | Datatypes.S n' =>
      let (s', brk) := body y s in
      if brk then s' else for_loop n' (y + 1) body s'
  end.

(** [for (year = first; year <= last; year++) { body }] *)
Definition for_years {S : Type} (first last : Z) (body : Z -> S -> S * bool)
    (s : S) : S :=
  for_loop (Z.to_nat (last - first + 1)) first body s.

(** The variables a schedule loop updates. *)
Record Schedule : Type := {
  rows : list CashFlowRow;
  remainingBalance : number;
  cumulativeSoFar : number
}.

(** [array[array.length - 1]], which is [undefined] on an empty array and
    turns into NaN in the arithmetic that follows. *)
Definition last_or_NaN (l : list number) : number := last l NaN.

(* ================================================================= *)
(** ** Primitives ([lib/financial-calculations.ts]) *)

Local Open Scope num_scope.

(** Monthly payment of an amortizing loan,
    [PMT = P * r(1+r)^n / ((1+r)^n - 1)]. *)
Definition calculateMonthlyPayment (principal annualRate : number) (years : Z)
    : number :=
  if annualRate === Fin 0 then principal / of_Z (years * 12)
  else
    let monthlyRate := annualRate / Fin 100 / Fin 12 in
    let numPayments := (years * 12)%Z in
    principal * (monthlyRate * num_pow (Fin 1 + monthlyRate) numPayments)
    / (num_pow (Fin 1 + monthlyRate) numPayments - Fin 1).

(** The [reduce] of [calculateNPV]: [year] is the index of the head of
    [cashFlows], [npv] the accumulator. *)
Fixpoint npv_reduce (discountRate : number) (cashFlows : list number)
    (year : Z) (npv : number) : number :=
  match cashFlows with
  | [] => npv
  | cashFlow :: rest =>
      npv_reduce discountRate rest (year + 1)
        (npv + cashFlow / num_pow (Fin 1 + discountRate / Fin 100) (year + 1))
  end.

Definition calculateNPV (cashFlows : list number) (discountRate : number)
    : number :=
  npv_reduce discountRate cashFlows 0 (Fin 0).

(** The inner loop of [calculateIRR] from index [j] on: it returns the final
    [npv] and [derivative]. *)
Fixpoint irr_sums (rate : number) (cashFlows : list number) (j : Z)
    (npv derivative : number) : number * number :=
  match cashFlows with
  | [] => (npv, derivative)
  | cf :: rest =>
      let factor := num_pow (Fin 1 + rate) (j + 1) in
      irr_sums rate rest (j + 1)
        (npv + cf / factor)
        (derivative - of_Z (j + 1) * cf / (factor * (Fin 1 + rate)))
  end.

Definition tolerance : number := Fin 0.0001.
Definition maxIterations : nat := 100.

(** The outer loop of [calculateIRR] with [n] iterations left. *)
Fixpoint irr_iterate (n : nat) (cashFlows : list number) (rate : number)
    : number :=
  match n with
  | O => rate
  | S n' =>
      let (npv, derivative) := irr_sums rate cashFlows 0 (Fin 0) (Fin 0) in
      if num_ltb (num_abs npv) tolerance then rate
      else irr_iterate n' cashFlows (rate - npv / derivative)
  end.

Definition calculateIRR (cashFlows : list number) : number :=
  irr_iterate maxIterations cashFlows (Fin 0.1) * Fin 100.

(* ================================================================= *)
(** ** All-cash *)

Definition allCashBody (netProceeds : number) (year : Z)
    (cashFlow : list CashFlowRow) : list CashFlowRow * bool :=
  (cashFlow ++ [ {| year := year;
                    principal := Fin 0;
                    interest := Fin 0;
                    equityReturns := Fin 0;
                    preTaxTotal := Fin 0;
                    taxImpact := Fin 0;
                    netCashFlow := Fin 0;
                    cumulative := netProceeds |} ],
   false).

Definition calculateAllCash (inputs : DealInputs) : result DealResults :=
  let purchasePrice := purchasePrice inputs in
  let taxRate := taxRate inputs in
  let taxImpact := purchasePrice * (taxRate / Fin 100) in
  let netProceeds := purchasePrice - taxImpact in
  let cashFlow :=
    [ {| year := 1;
         principal := purchasePrice;
         interest := Fin 0;
         equityReturns := Fin 0;
         preTaxTotal := purchasePrice;
         taxImpact := - taxImpact;
         netCashFlow := netProceeds;
         cumulative := netProceeds |} ] in
  let cashFlow :=
    for_years 2 (termLength inputs) (allCashBody netProceeds) cashFlow in
  match Array_fill (termLength inputs - 1) (Fin 0) with
  | Throw e => Throw e
  | Ok zeros =>
      let cashFlowValues := purchasePrice :: zeros in
      let npv := calculateNPV cashFlowValues (Fin 8) in
      let roi := (netProceeds - purchasePrice) / purchasePrice * Fin 100 in
      Ok {| totalInvestment := purchasePrice;
            netProceeds := netProceeds;
            roi := roi;
            irr := Fin 0;
            cashFlow := cashFlow;
            npv := npv |}
  end.

(* ================================================================= *)
(** ** Earn-out *)

(** State of the earn-out loop: the rows pushed so far and [cumulative]. *)
Definition earnOutBody (annualEarnOut taxRate : number) (year : Z)
    (st : list CashFlowRow * number) : (list CashFlowRow * number) * bool :=
  let (cashFlow, cumulative) := st in
  let earnOutTax := annualEarnOut * (taxRate / Fin 100) in
  let earnOutNet := annualEarnOut - earnOutTax in
  let cumulative := cumulative + earnOutNet in
  ((cashFlow ++ [ {| year := year;
                     principal := annualEarnOut;
                     interest := Fin 0;
                     equityReturns := Fin 0;
                     preTaxTotal := annualEarnOut;
                     taxImpact := - earnOutTax;
                     netCashFlow := earnOutNet;
                     cumulative := cumulative |} ],
    cumulative),
   false).

Definition calculateEarnOut (inputs : DealInputs) : DealResults :=
  let purchasePrice := purchasePrice inputs in
  let termLength := termLength inputs in
  let taxRate := taxRate inputs in
  let upfrontPayment := purchasePrice * Fin 0.6 in
  let earnOutAmount := purchasePrice * Fin 0.4 in
  let annualEarnOut := earnOutAmount / of_Z (termLength - 1) in
  let cumulative := Fin 0 in
  let year1Tax := upfrontPayment * (taxRate / Fin 100) in
  let year1Net := upfrontPayment - year1Tax in
  let cumulative := cumulative + year1Net in
  let cashFlow :=
    [ {| year := 1;
         principal := upfrontPayment;
         interest := Fin 0;
         equityReturns := Fin 0;
         preTaxTotal := upfrontPayment;
         taxImpact := - year1Tax;
         netCashFlow := year1Net;
         cumulative := cumulative |} ] in
  let st :=
    for_years 2 termLength (earnOutBody annualEarnOut taxRate)
      (cashFlow, cumulative) in
  let cashFlow := fst st in
  let cumulative := snd st in
  let cashFlowValues := map netCashFlow cashFlow in
  let npv := calculateNPV cashFlowValues (Fin 8) in
  let irr := calculateIRR (- upfrontPayment :: tl cashFlowValues) in
  {| totalInvestment := upfrontPayment;
     netProceeds := cumulative;
     roi := (cumulative - upfrontPayment) / upfrontPayment * Fin 100;
     irr := irr;
     cashFlow := cashFlow;
     npv := npv |}.

(* ================================================================= *)
(** ** Seller financing *)

Definition sellerBody (interestRate taxRate annualPayment downPayment downTax
    downNet : number) (year : Z) (st : Schedule) : Schedule * bool :=
  let interestPayment := remainingBalance st * (interestRate / Fin 100) in
  let principalPayment :=
    num_min (annualPayment - interestPayment) (remainingBalance st) in
  let totalPayment := principalPayment + interestPayment in
  let paymentTax := totalPayment * (taxRate / Fin 100) in
  let netPayment := totalPayment - paymentTax in
  let (cashFlow, cumulative) :=
    if (year =? 1)%Z then
      let totalYear1 := downNet + netPayment in
      let cumulative := totalYear1 in
      (rows st ++ [ {| year := year;
                       principal := downPayment + principalPayment;
                       interest := interestPayment;
                       equityReturns := Fin 0;
                       preTaxTotal := downPayment + totalPayment;
                       taxImpact := - (downTax + paymentTax);
                       netCashFlow := totalYear1;
                       cumulative := cumulative |} ],
       cumulative)
    else
      let cumulative := cumulativeSoFar st + netPayment in
      (rows st ++ [ {| year := year;
                       principal := principalPayment;
                       interest := interestPayment;
                       equityReturns := Fin 0;
                       preTaxTotal := totalPayment;
                       taxImpact := - paymentTax;
                       netCashFlow := netPayment;
                       cumulative := cumulative |} ],
       cumulative) in
  let remainingBalance := remainingBalance st - principalPayment in
  ({| rows := cashFlow;
      remainingBalance := remainingBalance;
      cumulativeSoFar := cumulative |},
   num_leb remainingBalance (Fin 0)).

(** The schedule loop of [calculateSellerFinancing] with its final state. *)
Definition sellerSchedule (inputs : DealInputs) : Schedule :=
  let purchasePrice := purchasePrice inputs in
  let termLength := termLength inputs in
  let interestRate := interestRate inputs in
  let taxRate := taxRate inputs in
  let downPayment := purchasePrice * Fin 0.2 in
  let financedAmount := purchasePrice - downPayment in
  let monthlyPayment :=
    calculateMonthlyPayment financedAmount interestRate termLength in
  let annualPayment := monthlyPayment * Fin 12 in
  let remainingBalance := financedAmount in
  let cumulative := Fin 0 in
  let downTax := downPayment * (taxRate / Fin 100) in
  let downNet := downPayment - downTax in
  let cumulative := cumulative + downNet in
  for_years 1 termLength
    (sellerBody interestRate taxRate annualPayment downPayment downTax downNet)
    {| rows := [];
       remainingBalance := remainingBalance;
       cumulativeSoFar := cumulative |}.

Definition calculateSellerFinancing (inputs : DealInputs) : DealResults :=
  let downPayment := purchasePrice inputs * Fin 0.2 in
  let st := sellerSchedule inputs in
  let cashFlow := rows st in
  let cumulative := cumulativeSoFar st in
  let cashFlowValues := map netCashFlow cashFlow in
  let npv := calculateNPV cashFlowValues (Fin 8) in
  let irr :=
    calculateIRR
      (- downPayment
       :: removelast cashFlowValues
       ++ [last_or_NaN cashFlowValues - downPayment]) in
  {| totalInvestment := downPayment;
     netProceeds := cumulative;
     roi := (cumulative - downPayment) / downPayment * Fin 100;
     irr := irr;
     cashFlow := cashFlow;
     npv := npv |}.

(* ================================================================= *)
(** ** SBA 7(a) loan *)

Definition sbaBody (purchasePrice interestRate taxRate annualPayment
    downPayment downTax : number) (year : Z) (st : Schedule)
    : Schedule * bool :=
  let interestPayment := remainingBalance st * (interestRate / Fin 100) in
  let principalPayment :=
    num_min (annualPayment - interestPayment) (remainingBalance st) in
  let equityGrowth := purchasePrice * Fin 0.1 in
  let equityTax := equityGrowth * (taxRate / Fin 100) in
  let netEquityGrowth := equityGrowth - equityTax in
  let loanPaymentAfterTax :=
    (principalPayment + interestPayment) * (Fin 1 - taxRate / Fin 100) in
  let netYearlyReturn := netEquityGrowth - loanPaymentAfterTax in
  let (cashFlow, cumulative) :=
    if (year =? 1)%Z then
      let netYearlyReturn := netYearlyReturn - downPayment in
      let cumulative := netYearlyReturn in
      (rows st ++ [ {| year := year;
                       principal := downPayment;
                       interest := interestPayment;
                       equityReturns := netEquityGrowth;
                       preTaxTotal := downPayment + equityGrowth;
                       taxImpact := - (downTax + equityTax);
                       netCashFlow := netYearlyReturn;
                       cumulative := cumulative |} ],
       cumulative)
    else
      let cumulative := cumulativeSoFar st + netYearlyReturn in
      (rows st ++ [ {| year := year;
                       principal := principalPayment;
                       interest := interestPayment;
                       equityReturns := netEquityGrowth;
                       preTaxTotal :=
                         principalPayment + interestPayment + equityGrowth;
                       taxImpact := - equityTax;
                       netCashFlow := netYearlyReturn;
                       cumulative := cumulative |} ],
       cumulative) in
  let remainingBalance := remainingBalance st - principalPayment in
  ({| rows := cashFlow;
      remainingBalance := remainingBalance;
      cumulativeSoFar := cumulative |},
   num_leb remainingBalance (Fin 0)).

(** The schedule loop of [calculateSBALoan] with its final state. *)
Definition sbaSchedule (inputs : DealInputs) : Schedule :=
  let purchasePrice := purchasePrice inputs in
  let termLength := termLength inputs in
  let interestRate := interestRate inputs in
  let taxRate := taxRate inputs in
  let downPayment := purchasePrice * Fin 0.1 in
  let loanAmount := purchasePrice * Fin 0.9 in
  let monthlyPayment :=
    calculateMonthlyPayment loanAmount interestRate termLength in
  let annualPayment := monthlyPayment * Fin 12 in
  let remainingBalance := loanAmount in
  let cumulative := Fin 0 in
  let downTax := downPayment * (taxRate / Fin 100) in
  for_years 1 termLength
    (sbaBody purchasePrice interestRate taxRate annualPayment downPayment
       downTax)
    {| rows := [];
       remainingBalance := remainingBalance;
       cumulativeSoFar := cumulative |}.

Definition calculateSBALoan (inputs : DealInputs) : DealResults :=
  let downPayment := purchasePrice inputs * Fin 0.1 in
  let st := sbaSchedule inputs in
  let cashFlow := rows st in
  let cumulative := cumulativeSoFar st in
  let cashFlowValues := map netCashFlow cashFlow in
  let npv := calculateNPV cashFlowValues (Fin 8) in
  let irr := calculateIRR cashFlowValues in
  {| totalInvestment := downPayment;
     netProceeds := cumulative;
     roi := (cumulative - downPayment) / downPayment * Fin 100;
     irr := irr;
     cashFlow := cashFlow;
     npv := npv |}.

(* ================================================================= *)
(** ** Custom structure *)

(** A destructuring default, [{ field = d } = inputs]. *)
Definition with_default (field : option number) (d : number) : number :=
  match field with
  | Some v => v
  | None => d
  end.

(** [initialPayment] of [calculateCustom] *)
Definition customInitialPayment (inputs : DealInputs) : number :=
  let downPayment := with_default (downPayment inputs) (Fin 0) in
  num_or downPayment (purchasePrice inputs * Fin 0.25).

(** [financedAmount] of [calculateCustom] *)
Definition customFinancedAmount (inputs : DealInputs) : number :=
  purchasePrice inputs - customInitialPayment inputs.

(** [balloonAmount] of [calculateCustom] *)
Definition customBalloonAmount (inputs : DealInputs) : number :=
  let balloonPayment := with_default (balloonPayment inputs) (Fin 0) in
  num_or balloonPayment (Fin 0).

(** [regularFinancedAmount] of [calculateCustom] *)
Definition customRegularFinancedAmount (inputs : DealInputs) : number :=
  customFinancedAmount inputs - customBalloonAmount inputs.

Definition customBody (termLength : Z) (interestRate taxRate annualPayment
    initialPayment initialTax initialNet balloonAmount : number) (year : Z)
    (st : Schedule) : Schedule * bool :=
  let interestPayment := remainingBalance st * (interestRate / Fin 100) in
  let principalPayment :=
    num_min (annualPayment - interestPayment) (remainingBalance st) in
  let totalPayment := principalPayment + interestPayment in
  let totalPayment :=
    if (year =? termLength)%Z && num_ltb (Fin 0) balloonAmount
    then totalPayment + balloonAmount
    else totalPayment in
  let paymentTax := totalPayment * (taxRate / Fin 100) in
  let netPayment := totalPayment - paymentTax in
  let (cashFlow, cumulative) :=
    if (year =? 1)%Z then
      let totalYear1 := initialNet + netPayment in
      let cumulative := totalYear1 in
      (rows st ++ [ {| year := year;
                       principal :=
                         initialPayment + principalPayment
                         + (if (year =? termLength)%Z then balloonAmount
                            else Fin 0);
                       interest := interestPayment;
                       equityReturns := Fin 0;
                       preTaxTotal := initialPayment + totalPayment;
                       taxImpact := - (initialTax + paymentTax);
                       netCashFlow := totalYear1;
                       cumulative := cumulative |} ],
       cumulative)
    else
      let cumulative := cumulativeSoFar st + netPayment in
      (rows st ++ [ {| year := year;
                       principal :=
                         principalPayment
                         + (if (year =? termLength)%Z then balloonAmount
                            else Fin 0);
                       interest := interestPayment;
                       equityReturns := Fin 0;
                       preTaxTotal := totalPayment;
                       taxImpact := - paymentTax;
                       netCashFlow := netPayment;
                       cumulative := cumulative |} ],
       cumulative) in
  let remainingBalance := remainingBalance st - principalPayment in
  ({| rows := cashFlow;
      remainingBalance := remainingBalance;
      cumulativeSoFar := cumulative |},
   num_leb remainingBalance (Fin 0)).

(** The schedule loop of [calculateCustom] with its final state. *)
Definition customSchedule (inputs : DealInputs) : Schedule :=
  let termLength := termLength inputs in
  let interestRate := interestRate inputs in
  let taxRate := taxRate inputs in
  let initialPayment := customInitialPayment inputs in
  let balloonAmount := customBalloonAmount inputs in
  let regularFinancedAmount := customRegularFinancedAmount inputs in
  let monthlyPayment :=
    if num_ltb (Fin 0) regularFinancedAmount
    then calculateMonthlyPayment regularFinancedAmount interestRate termLength
    else Fin 0 in
  let annualPayment := monthlyPayment * Fin 12 in
  let remainingBalance := regularFinancedAmount in
  let cumulative := Fin 0 in
  let initialTax := initialPayment * (taxRate / Fin 100) in
  let initialNet := initialPayment - initialTax in
  let cumulative := cumulative + initialNet in
  for_years 1 termLength
    (customBody termLength interestRate taxRate annualPayment initialPayment
       initialTax initialNet balloonAmount)
    {| rows := [];
       remainingBalance := remainingBalance;
       cumulativeSoFar := cumulative |}.

Definition calculateCustom (inputs : DealInputs) : DealResults :=
  let initialPayment := customInitialPayment inputs in
  let st := customSchedule inputs in
  let cashFlow := rows st in
  let cumulative := cumulativeSoFar st in
  let cashFlowValues := map netCashFlow cashFlow in
  let npv := calculateNPV cashFlowValues (Fin 8) in
  let irr := calculateIRR (- initialPayment :: tl cashFlowValues) in
  {| totalInvestment := initialPayment;
     netProceeds := cumulative;
     roi := (cumulative - initialPayment) / initialPayment * Fin 100;
     irr := irr;
     cashFlow := cashFlow;
     npv := npv |}.

(* ================================================================= *)
(** ** Dispatch *)

(** [DealType] is closed, so the [default:] arm of the [switch] (which
    falls back to all-cash) has no case of its own here. *)
Definition calculateDealStructure (dealType : DealType) (inputs : DealInputs)
    : result DealResults :=
  match dealType with
  | all_cash => calculateAllCash inputs
  | earn_out => Ok (calculateEarnOut inputs)
  | seller_financing => Ok (calculateSellerFinancing inputs)
  | sba_loan => Ok (calculateSBALoan inputs)
  | custom => Ok (calculateCustom inputs)
  end.

(* ================================================================= *)
(** ** Comparison mode ([calculateDeals] of the calculator page) *)

Local Open Scope string_scope.

(** The tag of a deal type, as the string the source uses for it *)
Definition dealTypeTag (d : DealType) : string :=
  match d with
  | all_cash => "all-cash"
  | earn_out => "earn-out"
  | seller_financing => "seller-financing"
  | sba_loan => "sba-loan"
  | custom => "custom"
  end.

Definition dealTypeColors (d : DealType) : string :=
  match d with
  | all_cash => "#3B82F6"
  | earn_out => "#10B981"
  | seller_financing => "#F59E0B"
  | sba_loan => "#8B5CF6"
  | custom => "#EF4444"
  end.

Definition dealTypeLabels (d : DealType) : string :=
  match d with
  | all_cash => "All-Cash Offer"
  | earn_out => "Earn-Out Structure"
  | seller_financing => "Seller Financing"
  | sba_loan => "SBA 7(a) Loan"
  | custom => "Custom Structure"
  end.

Record Toast : Type := {
  title : string;
  description : string;
  destructive : bool
}.

(** What [calculateDeals] reads and writes: the two pieces of React state
    and the two output channels ([toast] and [console.error]). *)
Record Page : Type := {
  isCalculating : bool;
  comparisons : list ComparisonData;
  toasts : list Toast;
  consoleErrors : list (string * exn)
}.

Definition setIsCalculating (b : bool) (p : Page) : Page :=
  {| isCalculating := b;
     comparisons := comparisons p;
     toasts := toasts p;
     consoleErrors := consoleErrors p |}.

Definition setComparisons (c : list ComparisonData) (p : Page) : Page :=
  {| isCalculating := isCalculating p;
     comparisons := c;
     toasts := toasts p;
     consoleErrors := consoleErrors p |}.

Definition toast (t : Toast) (p : Page) : Page :=
  {| isCalculating := isCalculating p;
     comparisons := comparisons p;
     toasts := (toasts p ++ [t])%list;
     consoleErrors := consoleErrors p |}.

Definition console_error (msg : string) (e : exn) (p : Page) : Page :=
  {| isCalculating := isCalculating p;
     comparisons := comparisons p;
     toasts := toasts p;
     consoleErrors := (consoleErrors p ++ [(msg, e)])%list |}.

Definition dealTypes : list DealType :=
  [all_cash; earn_out; seller_financing; sba_loan; custom].

Section CalculateDeals.

(** The calculator the loop calls; the page uses
    [calculateDealStructure]. *)
Variable calculate : DealType -> DealInputs -> result DealResults.

(** One turn of [for (const dealType of dealTypes) { try ... catch ... }]
    on [newComparisons] and the page. *)
Definition tryDealType (inputs : DealInputs)
    (st : list ComparisonData * Page) (dealType : DealType)
    : list ComparisonData * Page :=
  let (newComparisons, page) := st in
  match calculate dealType inputs with
  | Ok results =>
      ((newComparisons ++ [ {| dealType := dealType;
                               label := dealTypeLabels dealType;
                               results := results;
                               color := dealTypeColors dealType |} ])%list,
       page)
  | Throw error =>
      let page :=
        console_error ("Error calculating " ++ dealTypeTag dealType ++ ":")
          error page in
      let page :=
        toast {| title := "Calculation Error";
                 description :=
                   "Failed to calculate " ++ dealTypeLabels dealType
                   ++ ". Please check your inputs.";
                 destructive := true |} page in
      (newComparisons, page)
  end.

(** [toast] and [console.error] do not throw, so the outer [catch] is
    never entered; [finally] resets the flag. *)
Definition calculateDealsWith (inputs : DealInputs) (page : Page) : Page :=
  let page := setIsCalculating true page in
  let (newComparisons, page) :=
    fold_left (tryDealType inputs) dealTypes ([], page) in
  let page := setComparisons newComparisons page in
  let page :=
    toast {| title := "Calculations Complete";
             description :=
               "All deal structures have been calculated successfully.";
             destructive := false |} page in
  setIsCalculating false page.

End CalculateDeals.

Definition calculateDeals : DealInputs -> Page -> Page :=
  calculateDealsWith calculateDealStructure.

Local Close Scope string_scope.

(** The entry [calculateDeals] pushes for a deal type that returned [r]. *)
Definition comparisonOf (d : DealType) (r : DealResults) : ComparisonData :=
  {| dealType := d;
     label := dealTypeLabels d;
     results := r;
     color := dealTypeColors d |}.

(** The comparisons a run over [ds] collects: one per deal type whose
    calculator returned, in order. *)
Fixpoint collected (calculate : DealType -> DealInputs -> result DealResults)
    (inputs : DealInputs) (ds : list DealType) : list ComparisonData :=
  match ds with
  | [] => []
  | d :: rest =>
      match calculate d inputs with
      | Ok r => comparisonOf d r :: collected calculate inputs rest
      | Throw _ => collected calculate inputs rest
      end
  end.

(* ================================================================= *)
(** ** The calculator page: deal type and inputs *)

(** [a === b] on deal types, which the source holds as strings *)
Definition dealType_eqb (a b : DealType) : bool :=
  String.eqb (dealTypeTag a) (dealTypeTag b).

(** The two pieces of React state the handlers of the page write. *)
Record Selection : Type := {
  selectedDealType : DealType;
  inputs : DealInputs
}.

Definition setSelectedDealType (d : DealType) (st : Selection) : Selection :=
  {| selectedDealType := d; inputs := inputs st |}.

Definition setInputs (f : DealInputs -> DealInputs) (st : Selection)
    : Selection :=
  {| selectedDealType := selectedDealType st; inputs := f (inputs st) |}.

Definition handleDealTypeChange (dealType : DealType) (st : Selection)
    : Selection :=
  let st := setSelectedDealType dealType st in
  if negb (dealType_eqb dealType custom) then
    setInputs
      (fun prev =>
         {| purchasePrice := purchasePrice prev;
            termLength := termLength prev;
            interestRate := interestRate prev;
            taxRate := taxRate prev;
            equityRetained := equityRetained prev;
            downPayment := None;
            balloonPayment := None |})
      st
  else st.

Definition handleInputsChange (newInputs : DealInputs) (st : Selection)
    : Selection :=
  setInputs (fun _ => newInputs) st.

(** [comparisons.find(c => c.dealType === selectedDealType)] of the results
    panel; [None] is [undefined], for which the panel shows that no
    results are available. *)
Definition selectedComparison (comparisons : list ComparisonData)
    (selectedDealType : DealType) : option ComparisonData :=
  find (fun c => dealType_eqb (dealType c) selectedDealType) comparisons.

(** The failures a run over [ds] meets: the deal types whose calculator
    threw, in order, each with what it threw. *)
Fixpoint failures (calculate : DealType -> DealInputs -> result DealResults)
    (inputs : DealInputs) (ds : list DealType) : list (DealType * exn) :=
  match ds with
  | [] => []
  | d :: rest =>
      match calculate d inputs with
      | Ok _ => failures calculate inputs rest
      | Throw e => (d, e) :: failures calculate inputs rest
      end
  end.

(** The toast and the console line of one failure *)
Definition errorToast (d : DealType) : Toast :=
  {| title := "Calculation Error";
     description :=
       ("Failed to calculate " ++ dealTypeLabels d
        ++ ". Please check your inputs.")%string;
     destructive := true |}.

Definition errorLine (f : DealType * exn) : string * exn :=
  (("Error calculating " ++ dealTypeTag (fst f) ++ ":")%string, snd f).

Definition completeToast : Toast :=
  {| title := "Calculations Complete";
     description := "All deal structures have been calculated successfully.";
     destructive := false |}.

(* ================================================================= *)
(** ** The cash-flow chart ([cash-flow-chart.tsx]) *)

Inductive ViewType : Type := yearly | cumulative_view.

Record Dataset : Type := {
  dataset_label : string;
  data : list number;
  backgroundColor : string;
  borderColor : string
}.

(** [Math.max(...lengths)]; the chart returns before it when there is no
    comparison, so the list is never empty and 0 is a neutral start. *)
Definition Math_max (lengths : list nat) : nat := fold_right Nat.max O lengths.

(** [data[index] = v].  The chart guards the assignment by
    [index < maxTermLength], the length of [data], so the assignment never
    extends the array. *)
Fixpoint array_set (data : list number) (index : nat) (v : number)
    : list number :=
  match data, index with
  | [], _ => []
  | _ :: rest, O => v :: rest
  | x :: rest, S index' => x :: array_set rest index' v
  end.

Definition chartValue (viewType : ViewType) (row : CashFlowRow) : number :=
  match viewType with
  | yearly => netCashFlow row
  | cumulative_view => cumulative row
  end.

(** The [forEach] on the rows of one comparison *)
Definition chartData (maxTermLength : nat) (viewType : ViewType)
    (cashFlow : list CashFlowRow) : list number :=
  let data := repeat (Fin 0) maxTermLength in
  fold_left
    (fun data (entry : nat * CashFlowRow) =>
       let (index, row) := entry in
       if (index <? maxTermLength)%nat
       then array_set data index (chartValue viewType row)
       else data)
    (combine (seq 0 (List.length cashFlow)) cashFlow)
    data.

(** [`Year ${i + 1}`] *)
Definition yearLabel (i : nat) : string :=
  ("Year " ++ NilEmpty.string_of_uint (Nat.to_uint (i + 1)))%string.

(** The labels and datasets the effect hands to Chart.js, on a mounted
    canvas; [None] when it returns early on an empty comparison list. *)
Definition chartConfig (comparisons : list ComparisonData)
    (viewType : ViewType) : option (list string * list Dataset) :=
  match comparisons with
  | [] => None
  | _ =>
      let maxTermLength :=
        Math_max
          (map (fun c => List.length (cashFlow (results c))) comparisons) in
      let labels := map yearLabel (seq 0 maxTermLength) in
      let datasets :=
        map (fun comparison =>
               {| dataset_label := label comparison;
                  data :=
                    chartData maxTermLength viewType
                      (cashFlow (results comparison));
                  backgroundColor := (color comparison ++ "20")%string;
                  borderColor := color comparison |})
            comparisons in
      Some (labels, datasets)
  end.

(* ================================================================= *)
(** ** The input form ([input-form.tsx]) *)

(** The form holds a [DealInputs] object as typed: its [termLength] is
    whatever number was parsed, not yet known to be a whole number. *)
Record FormData : Type := {
  form_purchasePrice : number;
  form_termLength : number;
  form_interestRate : number;
  form_taxRate : number;
  form_equityRetained : number;
  form_downPayment : option number;
  form_balloonPayment : option number
}.

(** [keyof DealInputs] *)
Inductive Field : Type :=
| f_purchasePrice | f_termLength | f_interestRate | f_taxRate
| f_equityRetained | f_downPayment | f_balloonPayment.

Definition fields : list Field :=
  [f_purchasePrice; f_termLength; f_interestRate; f_taxRate;
   f_equityRetained; f_downPayment; f_balloonPayment].

Definition Field_eqb (a b : Field) : bool :=
  match a, b with
  | f_purchasePrice, f_purchasePrice | f_termLength, f_termLength
  | f_interestRate, f_interestRate | f_taxRate, f_taxRate
  | f_equityRetained, f_equityRetained | f_downPayment, f_downPayment
  | f_balloonPayment, f_balloonPayment => true
  | _, _ => false
  end.

(** [formData[field]]; [None] is [undefined]. *)
Definition form_get (formData : FormData) (field : Field) : option number :=
  match field with
  | f_purchasePrice => Some (form_purchasePrice formData)
  | f_termLength => Some (form_termLength formData)
  | f_interestRate => Some (form_interestRate formData)
  | f_taxRate => Some (form_taxRate formData)
  | f_equityRetained => Some (form_equityRetained formData)
  | f_downPayment => form_downPayment formData
  | f_balloonPayment => form_balloonPayment formData
  end.

(** [{ ...formData, [field]: v }] *)
Definition form_set (formData : FormData) (field : Field) (v : number)
    : FormData :=
  {| form_purchasePrice :=
       if Field_eqb field f_purchasePrice then v
       else form_purchasePrice formData;
     form_termLength :=
       if Field_eqb field f_termLength then v else form_termLength formData;
     form_interestRate :=
       if Field_eqb field f_interestRate then v
       else form_interestRate formData;
     form_taxRate :=
       if Field_eqb field f_taxRate then v else form_taxRate formData;
     form_equityRetained :=
       if Field_eqb field f_equityRetained then v
       else form_equityRetained formData;
     form_downPayment :=
       if Field_eqb field f_downPayment then Some v
       else form_downPayment formData;
     form_balloonPayment :=
       if Field_eqb field f_balloonPayment then Some v
       else form_balloonPayment formData |}.

(** [errors: Record<string, string>], read and written at field names
    only; [None] is a key that is absent. *)
Definition Errors : Type := Field -> option string.

Definition noErrors : Errors := fun _ => None.

Definition set_error (errors : Errors) (field : Field) (message : string)
    : Errors :=
  fun g => if Field_eqb g field then Some message else errors g.

(** Truthiness of [errors[field]]: a present, non-empty message *)
Definition has_message (e : option string) : bool :=
  match e with
  | Some EmptyString | None => false
  | Some _ => true
  end.

(** [Object.keys(errors).length === 0] *)
Definition no_keys (errors : Errors) : bool :=
  forallb (fun g => match errors g with None => true | Some _ => false end)
    fields.

(** [validateForm]: the errors it sets and the boolean it returns *)
Definition validateForm (formData : FormData) : Errors * bool :=
  let newErrors := noErrors in
  let newErrors :=
    if negb (truthy (form_purchasePrice formData))
       || num_leb (form_purchasePrice formData) (Fin 0)
    then set_error newErrors f_purchasePrice
           "Purchase price must be greater than 0"
    else newErrors in
  let newErrors :=
    if negb (truthy (form_termLength formData))
       || num_ltb (form_termLength formData) (Fin 1)
       || num_ltb (Fin 30) (form_termLength formData)
    then set_error newErrors f_termLength
           "Term length must be between 1 and 30 years"
    else newErrors in
  let newErrors :=
    if num_ltb (form_interestRate formData) (Fin 0)
       || num_ltb (Fin 50) (form_interestRate formData)
    then set_error newErrors f_interestRate
           "Interest rate must be between 0 and 50%"
    else newErrors in
  let newErrors :=
    if negb (truthy (form_taxRate formData))
       || num_ltb (form_taxRate formData) (Fin 0)
       || num_ltb (Fin 60) (form_taxRate formData)
    then set_error newErrors f_taxRate "Tax rate must be between 0 and 60%"
    else newErrors in
  let newErrors :=
    if num_ltb (form_equityRetained formData) (Fin 0)
       || num_ltb (Fin 100) (form_equityRetained formData)
    then set_error newErrors f_equityRetained
           "Equity retained must be between 0 and 100%"
    else newErrors in
  (newErrors, no_keys newErrors).

Section InputForm.

(** The state of the parent and its two callbacks *)
Variable Parent : Type.
Variable onInputsChange : FormData -> Parent -> Parent.
Variable onCalculate : Parent -> Parent.

(** [handleInputChange(field, value)], given [parsed = parseFloat(value)],
    on the form data, the errors and the parent *)
Definition handleInputChange (field : Field) (parsed : number)
    (st : FormData * Errors * Parent) : FormData * Errors * Parent :=
  let '(formData, errors, parent) := st in
  let numericValue := num_or parsed (Fin 0) in
  let updatedInputs := form_set formData field numericValue in
  let parent := onInputsChange updatedInputs parent in
  let errors :=
    if has_message (errors field) then set_error errors field ""
    else errors in
  (updatedInputs, errors, parent).

Definition handleCalculate (st : FormData * Errors * Parent)
    : FormData * Errors * Parent :=
  let '(formData, _, parent) := st in
  let (newErrors, ok) := validateForm formData in
  (formData, newErrors, if ok then onCalculate parent else parent).

End InputForm.

(** The form data of a [DealInputs] whose term is the whole number
    [termLength]: the same object, read as the form reads it. *)
Definition formOf (inputs : DealInputs) : FormData :=
  {| form_purchasePrice := purchasePrice inputs;
     form_termLength := of_Z (termLength inputs);
     form_interestRate := interestRate inputs;
     form_taxRate := taxRate inputs;
     form_equityRetained := equityRetained inputs;
     form_downPayment := downPayment inputs;
     form_balloonPayment := balloonPayment inputs |}.

(* ================================================================= *)
(** ** Preconditions and the predicates of the specification *)

(** [lo <= x <= hi] for a finite [x] *)
Definition in_range (lo hi : Q) (x : number) : bool :=
  match x with
  | Fin q => Qle_bool lo q && Qle_bool q hi
  | _ => false
  end.

Definition nonnegative (x : number) : bool :=
  match x with
  | Fin q => Qle_bool 0 q
  | _ => false
  end.

Definition optional (P : number -> bool) (x : option number) : bool :=
  match x with
  | Some v => P v
  | None => true
  end.

(** The preconditions of [DealInputs]: [purchasePrice > 0] finite,
    [termLength] in 1..30, [interestRate] in 0..50, [taxRate] in 0..60,
    and the optional fields non-negative when present. *)
Definition valid_inputs (i : DealInputs) : bool :=
  match purchasePrice i with Fin p => Qlt_bool 0 p | _ => false end
  && (1 <=? termLength i)%Z && (termLength i <=? 30)%Z
  && in_range 0 50 (interestRate i)
  && in_range 0 60 (taxRate i)
  && optional nonnegative (downPayment i)
  && optional nonnegative (balloonPayment i).


(** [Σ CF_t / (1 + r)^t] for [t = first .. first + N - 1], [r] in percent *)
Fixpoint discounted_sum (r : number) (first : Z) (cfs : list number)
    : number :=
  match cfs with
  | [] => Fin 0
  | cf :: rest =>
      cf / num_pow (Fin 1 + r / Fin 100) first
      + discounted_sum r (first + 1) rest
  end.

(** The sum of the [principal] column *)
Definition sum_principal (rs : list CashFlowRow) : number :=
  fold_left (fun acc r => acc + principal r) rs (Fin 0).

Definition row_finite (r : CashFlowRow) : bool :=
  is_finite (principal r) && is_finite (interest r)
  && is_finite (equityReturns r) && is_finite (preTaxTotal r)
  && is_finite (taxImpact r) && is_finite (netCashFlow r)
  && is_finite (cumulative r).

Definition results_finite (d : DealResults) : bool :=
  is_finite (totalInvestment d) && is_finite (netProceeds d)
  && is_finite (roi d) && is_finite (irr d) && is_finite (npv d)
  && forallb row_finite (cashFlow d).

(* ================================================================= *)
(** ** Concrete inputs *)

(** The inputs the calculator page starts with. *)
Definition defaultInputs : DealInputs :=
  {| purchasePrice := Fin 500000; termLength := 5; interestRate := Fin 5.5;
     taxRate := Fin 25; equityRetained := Fin 0;
     downPayment := None; balloonPayment := None |}.

(** Inputs on which the all-cash calculator throws ([Array(-1)]). *)
Definition zeroTermInputs : DealInputs :=
  {| purchasePrice := Fin 500000; termLength := 0; interestRate := Fin 5.5;
     taxRate := Fin 25; equityRetained := Fin 0;
     downPayment := None; balloonPayment := None |}.

Definition emptyPage : Page :=
  {| isCalculating := false; comparisons := []; toasts := [];
     consoleErrors := [] |}.


(** The default inputs with a down payment of 100000. *)
Definition downPaymentInputs : DealInputs :=
  {| purchasePrice := Fin 500000; termLength := 5; interestRate := Fin 5.5;
     taxRate := Fin 25; equityRetained := Fin 0;
     downPayment := Some (Fin 100000); balloonPayment := None |}.

(** The inputs of a bullet loan: the whole financed amount (75% of the
    price) is due as the balloon. *)
Definition bulletInputs : DealInputs :=
  {| purchasePrice := Fin 500000; termLength := 5; interestRate := Fin 5.5;
     taxRate := Fin 25; equityRetained := Fin 0;
     downPayment := None; balloonPayment := Some (Fin 375000) |}.

(* ================================================================= *)
(** ** The cumulative invariant and the invariant of the schedule loops *)







(** The state of a zero-rate seller-financing schedule about to run year
    [y]: [y - 1] rows have been pushed, each year retired [A] of the
    financed [F], and the principal column sums to what was retired plus
    the down payment [dp] once year 1 is in. *)
Definition straight_line_inv (n : Z) (F A dp : Q) (y : Z) (st : Schedule)
    : Prop :=
  (1 <= y <= n + 1)%Z
  /\ List.length (rows st) = Z.to_nat (y - 1)
  /\ exists b s,
       remainingBalance st = Fin b
       /\ b == F - inject_Z (y - 1) * A
       /\ sum_principal (rows st) = Fin s
       /\ s == (if (y =? 1)%Z then 0 else dp) + inject_Z (y - 1) * A.

(* ================================================================= *)
(** ** The same value *)








(* ================================================================= *)
(** ** Reference models and loop invariants of the further properties *)

(** The signs a seller-financing row keeps: principal and interest are
    not negative, the tax impact is a deduction, the net cash flow is not
    negative. *)
Definition row_signs (r : CashFlowRow) : bool :=
  num_leb (Fin 0) (principal r) && num_leb (Fin 0) (interest r)
  && num_leb (taxImpact r) (Fin 0) && num_leb (Fin 0) (netCashFlow r).

(** The state of the seller-financing loop as far as signs go: the balance
    stays between 0 and the financed amount [F]. *)
Definition signs_inv (F : Q) (y : Z) (st : Schedule) : Prop :=
  (exists b, remainingBalance st = Fin b /\ 0 <= b /\ b <= F)
  /\ Forall (fun r => row_signs r = true) (rows st).

(** A schedule loop that stopped early did so on a balance paid off. *)
Definition stopped_or_full (n : nat) (len0 : nat) (st : Schedule) : Prop :=
  (len0 <= List.length (rows st) <= len0 + n)%nat
  /\ ((List.length (rows st) < len0 + n)%nat ->
      num_leb (remainingBalance st) (Fin 0) = true).

(** The state of an amortization loop entering [year], as far as the
    balance goes: [termLength] is the term, [F] the amount financed, [r]
    the yearly rate as a fraction and [Pw] the monthly compounding factor
    over the whole term, [(1 + r/12)^(12 * termLength)].  The balance
    follows the closed form [F * (Pw - (1 + r)^(year - 1)) / (Pw - 1)]. *)
Definition balance_inv (termLength : Z) (F r Pw : Q) (year : Z)
    (st : Schedule) : Prop :=
  (1 <= year <= termLength + 1)%Z
  /\ List.length (rows st) = Z.to_nat (year - 1)
  /\ exists b, remainingBalance st = Fin b
               /\ b * (Pw - 1) == F * (Pw - (1 + r) ^ (year - 1)).

(** The state of a zero-rate amortization loop entering [year], as far as
    the balance goes: each year so far retired [A] of the financed [F]. *)
Definition line_inv (termLength : Z) (F A : Q) (year : Z) (st : Schedule)
    : Prop :=
  (1 <= year <= termLength + 1)%Z
  /\ List.length (rows st) = Z.to_nat (year - 1)
  /\ exists b, remainingBalance st = Fin b
               /\ b == F - inject_Z (year - 1) * A.

(* ================================================================= *)
(** ** Amortizing an amount *)




(* ================================================================= *)
(** ** All-cash on a term that is any number *)

(** The array length [Array(len)] accepts: a whole number from 0 to
    [2^32 - 1].  Anything else is a RangeError. *)
Definition array_length (len : number) : option nat :=
  match len with
  | Fin q =>
      if Qeq_bool (inject_Z (Qfloor q)) q
         && (0 <=? Qfloor q)%Z && (Qfloor q <? 2 ^ 32)%Z
      then Some (Z.to_nat (Qfloor q))
      else None
  | _ => None
  end.

(** [Array(len).fill(value)] on a [len] that is any number *)
Definition Array_fill_number (len value : number) : result (list number) :=
  match array_length len with
  | Some n => Ok (repeat value n)
  | None => Throw (RangeError "Invalid array length")
  end.

(** [calculateAllCash] as the code runs it when [inputs.termLength] is the
    finite number [termLength], whole or not (the form lets a term such as
    2.5 through): the loop runs while [year <= termLength], that is up to
    the whole part of [termLength], and then [Array(termLength - 1)] is
    built.  The other fields are read from [inputs]. *)
Definition calculateAllCashAt (termLength : Q) (inputs : DealInputs)
    : result DealResults :=
  let purchasePrice := purchasePrice inputs in
  let taxRate := taxRate inputs in
  let taxImpact := purchasePrice * (taxRate / Fin 100) in
  let netProceeds := purchasePrice - taxImpact in
  let cashFlow :=
    [ {| year := 1;
         principal := purchasePrice;
         interest := Fin 0;
         equityReturns := Fin 0;
         preTaxTotal := purchasePrice;
         taxImpact := - taxImpact;
         netCashFlow := netProceeds;
         cumulative := netProceeds |} ] in
  let cashFlow :=
    for_years 2 (Qfloor termLength) (allCashBody netProceeds) cashFlow in
  match Array_fill_number (Fin termLength - Fin 1) (Fin 0) with
  | Throw e => Throw e
  | Ok zeros =>
      let cashFlowValues := purchasePrice :: zeros in
      let npv := calculateNPV cashFlowValues (Fin 8) in
      let roi := (netProceeds - purchasePrice) / purchasePrice * Fin 100 in
      Ok {| totalInvestment := purchasePrice;
            netProceeds := netProceeds;
            roi := roi;
            irr := Fin 0;
            cashFlow := cashFlow;
            npv := npv |}
  end.

(** A form that passes validation with a term of two and a half years. *)
Definition fractionalTermForm : FormData :=
  {| form_purchasePrice := Fin 500000; form_termLength := Fin 2.5;
     form_interestRate := Fin 5.5; form_taxRate := Fin 25;
     form_equityRetained := Fin 0;
     form_downPayment := None; form_balloonPayment := None |}.

(* ================================================================= *)
(** ** Inputs of an everyday scale *)

(** Valid inputs whose price lies between 1 and 10^15 and whose interest
    rate is 0 or at least 0.01 percent.  On this scale binary64 neither
    underflows nor overflows in the calculators and the monthly rate is
    not absorbed in [1 + monthlyRate]; the orderings proved below of the
    exact amounts have margins of the order of the rate times the price,
    against rounding errors of the order of [2^-53] times the price. *)
Definition everyday_inputs (i : DealInputs) : bool :=
  valid_inputs i
  && in_range 1 1000000000000000 (purchasePrice i)
  && ((interestRate i === Fin 0) || in_range 0.01 50 (interestRate i)).

(* ================================================================= *)
(** ** The amounts in binary64 *)

(** The calculators above compute in exact rationals.  The code computes
    in IEEE 754 binary64, and where a product underflows or a sum is
    rounded the two part.  The expressions that decide the outcome at such
    inputs are given here over [float], operation for operation. *)

Section Binary64.

Local Open Scope float_scope.

(** Truthiness of a number, as [||] tests it. *)
Definition truthy64 (x : float) : bool := negb (x =? 0) && negb (is_nan x).

(** [Math.min] *)
Definition Math_min64 (x y : float) : float :=
  if is_nan x || is_nan y then nan else if x <? y then x else y.

(** The [totalInvestment] each calculator returns: [purchasePrice]
    (all-cash), [upfrontPayment] (earn-out), [downPayment] (seller
    financing, SBA) and [initialPayment] (custom, where an absent
    [downPayment] is destructured to 0). *)
Definition totalInvestment64 (dealType : DealType) (purchasePrice : float)
    (downPayment : option float) : float :=
  match dealType with
  | all_cash => purchasePrice
  | earn_out => purchasePrice * 0.6
  | seller_financing => purchasePrice * 0.2
  | sba_loan => purchasePrice * 0.1
  | custom =>
      let downPayment :=
        match downPayment with Some d => d | None => 0 end in
      if truthy64 downPayment then downPayment else purchasePrice * 0.25
  end.

(** [monthlyRate] of [calculateMonthlyPayment] *)
Definition monthlyRate64 (annualRate : float) : float := annualRate / 100 / 12.

(** [preTaxTotal], [taxImpact] and [netCashFlow] of the row of year 1 of
    [calculateSellerFinancing] at [interestRate = 0], where
    [calculateMonthlyPayment] returns [principal / (years * 12)]. *)
Definition sellerYear1Row64 (purchasePrice termLength taxRate : float)
    : float * float * float :=
  let interestRate := 0 in
  let downPayment := purchasePrice * 0.2 in
  let financedAmount := purchasePrice - downPayment in
  let monthlyPayment := financedAmount / (termLength * 12) in
  let annualPayment := monthlyPayment * 12 in
  let remainingBalance := financedAmount in
  let downTax := downPayment * (taxRate / 100) in
  let downNet := downPayment - downTax in
  let interestPayment := remainingBalance * (interestRate / 100) in
  let principalPayment :=
    Math_min64 (annualPayment - interestPayment) remainingBalance in
  let totalPayment := principalPayment + interestPayment in
  let paymentTax := totalPayment * (taxRate / 100) in
  let netPayment := totalPayment - paymentTax in
  let totalYear1 := downNet + netPayment in
  (downPayment + totalPayment, - (downTax + paymentTax), totalYear1).

(** The smallest positive number of binary64, [2^-1074]. *)
Definition MIN_VALUE : float := 0x1p-1074.

End Binary64.

(** The smallest positive normal number of binary64, [2^-1022]: from here
    up a product by 0.1 or more is not 0. *)
Definition MIN_NORMAL : Q := 1 # (2 ^ 1022).

(* ================================================================= *)
(** * Properties *)

(** ** Arithmetic on finite numbers *)

Lemma num_add_Fin (a b : Q) : Fin a + Fin b = Fin (Qred (a + b)).
Proof. reflexivity. Qed.

Lemma num_neg_Fin (a : Q) : - Fin a = Fin (- a).
Proof. reflexivity. Qed.

Lemma num_sub_Fin (a b : Q) : Fin a - Fin b = Fin (Qred (a + - b)).
Proof. reflexivity. Qed.

Lemma num_mul_Fin (a b : Q) : Fin a * Fin b = Fin (Qred (a * b)).
Proof. reflexivity. Qed.

Lemma num_min_Fin (a b : Q) : num_min (Fin a) (Fin b) = Fin (Qmin a b).
Proof. reflexivity. Qed.

Lemma Qeq_bool_false (a b : Q) : ~ a == b -> Qeq_bool a b = false.
Proof.
  intros H. destruct (Qeq_bool a b) eqn:E; [|reflexivity].
  apply Qeq_bool_eq in E. contradiction.
Qed.

Lemma num_div_Fin (a b : Q) : ~ b == 0 -> Fin a / Fin b = Fin (Qred (a / b)).
Proof.
  intros H. unfold num_div. now rewrite (Qeq_bool_false H).
Qed.

Lemma num_div_100 (a : Q) : Fin a / Fin 100 = Fin (Qred (a / 100)).
Proof. reflexivity. Qed.

Lemma num_eqb_Fin (a b : Q) : (Fin a === Fin b) = true <-> a == b.
Proof. apply Qeq_bool_iff. Qed.


Lemma Qlt_bool_iff (a b : Q) : Qlt_bool a b = true <-> a < b.
Proof.
  unfold Qlt_bool. rewrite negb_true_iff.
  split; intros H.
  - apply Qnot_le_lt. intros Hle. apply Qle_bool_iff in Hle. congruence.
  - destruct (Qle_bool b a) eqn:E; [|reflexivity].
    apply Qle_bool_iff in E. apply Qle_not_lt in E. contradiction.
Qed.

Lemma Qlt_bool_false_iff (a b : Q) : Qlt_bool a b = false <-> b <= a.
Proof.
  unfold Qlt_bool. rewrite negb_false_iff. apply Qle_bool_iff.
Qed.

Lemma is_finite_Fin (x : number) : is_finite x = true <-> exists q, x = Fin q.
Proof.
  split.
  - destruct x; try discriminate. now exists q.
  - now intros [q ->].
Qed.

Lemma num_pow_1 (q : Q) : num_pow (Fin q) 1 = Fin q.
Proof. reflexivity. Qed.

Lemma inject_Z_nonzero (z : Z) : z <> 0%Z -> ~ inject_Z z == 0.
Proof.
  intros Hz H. unfold Qeq in H. cbn in H. lia.
Qed.

Lemma num_add_normal (x y : number) : x + y + Fin 0 = x + y.
Proof.
  destruct x as [a| | |], y as [b| | |]; try reflexivity.
  cbn [num_add fin]. apply (f_equal Fin). apply Qred_complete.
  rewrite Qred_correct. ring.
Qed.

Lemma num_sub_normal (x y : number) : x - y + Fin 0 = x - y.
Proof. apply num_add_normal. Qed.

Lemma num_mul_normal (x y : number) : x * y + Fin 0 = x * y.
Proof.
  destruct x as [a| | |], y as [b| | |]; try reflexivity;
    cbn [num_mul fin];
    try (destruct (Qeq_bool _ 0); [reflexivity|];
         destruct (Qlt_bool _ _); reflexivity).
  cbn [num_add fin]. apply (f_equal Fin). apply Qred_complete.
  rewrite Qred_correct. ring.
Qed.

Lemma num_min_normal (x y : number) :
  x + Fin 0 = x -> y + Fin 0 = y -> num_min x y + Fin 0 = num_min x y.
Proof.
  destruct x as [a| | |], y as [b| | |]; try reflexivity; try (intros; assumption).
  intros Ha Hb. cbn [num_min]. unfold Qmin, GenericMinMax.gmin.
  destruct (a ?= b); assumption.
Qed.

Lemma num_sub_0_normal (x : number) : x + Fin 0 = x -> x - Fin 0 = x.
Proof.
  intros H. destruct x as [a| | |]; try reflexivity.
  rewrite <- H at 2. cbn [num_sub num_neg num_add fin]. apply (f_equal Fin).
  apply Qred_complete. ring.
Qed.

Ltac fin_arith :=
  repeat first
    [ rewrite num_add_Fin | rewrite num_sub_Fin | rewrite num_mul_Fin
    | rewrite num_neg_Fin | rewrite num_min_Fin | rewrite num_div_100 ].

Ltac row_fields :=
  cbn [year principal interest equityReturns preTaxTotal taxImpact
       netCashFlow cumulative].

Ltac q_equation :=
  apply num_eqb_Fin; rewrite ?Qred_correct.

(** ** Preconditions *)

Lemma valid_inputs_spec (i : DealInputs) :
  valid_inputs i = true ->
  exists p ir tr,
    purchasePrice i = Fin p /\ 0 < p /\
    (1 <= termLength i <= 30)%Z /\
    interestRate i = Fin ir /\ 0 <= ir /\ ir <= 50 /\
    taxRate i = Fin tr /\ 0 <= tr /\ tr <= 60 /\
    (downPayment i = None \/ exists d, downPayment i = Some (Fin d) /\ 0 <= d) /\
    (balloonPayment i = None \/ exists b, balloonPayment i = Some (Fin b) /\ 0 <= b).
Proof.
  unfold valid_inputs. rewrite !andb_true_iff.
  intros [[[[[[Hp Hlo] Hhi] Hir] Htr] Hdp] Hbp].
  destruct (purchasePrice i) as [p| | |]; try discriminate.
  destruct (interestRate i) as [ir| | |]; try discriminate.
  destruct (taxRate i) as [tr| | |]; try discriminate.
  cbn in Hir, Htr. rewrite andb_true_iff, !Qle_bool_iff in Hir, Htr.
  apply Qlt_bool_iff in Hp. apply Z.leb_le in Hlo, Hhi.
  exists p, ir, tr. repeat split; try tauto; try lia.
  - destruct (downPayment i) as [[d| | |]|]; try discriminate; [right|now left].
    exists d. split; [reflexivity|]. now apply Qle_bool_iff.
  - destruct (balloonPayment i) as [[b| | |]|]; try discriminate; [right|now left].
    exists b. split; [reflexivity|]. now apply Qle_bool_iff.
Qed.

Lemma Array_fill_ok (n : Z) (v : number) :
  (0 <= n)%Z -> Array_fill n v = Ok (repeat v (Z.to_nat n)).
Proof.
  intros H. unfold Array_fill.
  destruct (n <? 0)%Z eqn:E; [apply Z.ltb_lt in E; lia|reflexivity].
Qed.

(** ** Net present value *)

(** The four calculators other than all-cash discount their own
    netCashFlow column. *)
Lemma siblings_npv_of_netCashFlow (d : DealType) (i : DealInputs) :
  d <> all_cash ->
  exists r,
    calculateDealStructure d i = Ok r
    /\ npv r = calculateNPV (map netCashFlow (cashFlow r)) (Fin 8).
Proof.
  intros Hd. destruct d; try congruence; eexists; split; reflexivity.
Qed.

Lemma discount_factor (y : Z) :
  (0 <= y)%Z ->
  exists f, num_pow (Fin 1 + Fin 8 / Fin 100) (y + 1) = Fin f /\ ~ f == 0.
Proof.
  intros Hy. change (Fin 1 + Fin 8 / Fin 100) with (Fin (27 # 25)).
  destruct (y + 1)%Z as [|q|q] eqn:E; try lia.
  cbn [num_pow pow_pos]. eexists. split; [reflexivity|].
  apply Qpower_not_0_positive. discriminate.
Qed.

Lemma npv_reduce_discounted_sum (cfs : list number) :
  forallb is_finite cfs = true ->
  forall y a, (0 <= y)%Z ->
  exists x d,
    npv_reduce (Fin 8) cfs y (Fin a) = Fin x
    /\ discounted_sum (Fin 8) (y + 1) cfs = Fin d
    /\ x == a + d.
Proof.
  induction cfs as [|cf cfs IH]; intros Hfin y a Hy;
    cbn [npv_reduce discounted_sum].
  - exists a, 0. repeat split. ring.
  - cbn [forallb] in Hfin. apply andb_true_iff in Hfin.
    destruct Hfin as [Hcf Hfin]. apply is_finite_Fin in Hcf.
    destruct Hcf as [c ->].
    destruct (discount_factor Hy) as (f & -> & Hf).
    rewrite (num_div_Fin _ Hf). fin_arith.
    destruct (IH Hfin (y + 1)%Z (Qred (a + Qred (c / f))) ltac:(lia))
      as (x & d & -> & -> & Hx).
    fin_arith. do 2 eexists. repeat split.
    rewrite Hx, !Qred_correct. ring.
Qed.

(** [calculateNPV] at 8% is the sum of the specification,
    [Σ CF_t / 1.08^t] for [t = 1 .. N], on finite cash flows. *)
Lemma calculateNPV_discounted_sum (cfs : list number) :
  forallb is_finite cfs = true ->
  (calculateNPV cfs (Fin 8) === discounted_sum (Fin 8) 1 cfs) = true.
Proof.
  intros Hfin. unfold calculateNPV.
  destruct (npv_reduce_discounted_sum cfs Hfin (y := 0) 0 ltac:(lia))
    as (x & d & -> & Hd & Hx).
  cbn [Z.add] in Hd. rewrite Hd. q_equation. rewrite Hx. ring.
Qed.

Lemma npv_reduce_zeros (k : nat) :
  forall y a, (0 <= y)%Z ->
  exists x,
    npv_reduce (Fin 8) (repeat (Fin 0) k) y (Fin a) = Fin x /\ x == a.
Proof.
  induction k as [|k IH]; intros y a Hy; cbn [repeat npv_reduce].
  - exists a. split; reflexivity.
  - destruct (discount_factor Hy) as (f & -> & Hf).
    rewrite (num_div_Fin _ Hf). fin_arith.
    destruct (IH (y + 1)%Z (Qred (a + Qred (0 / f))) ltac:(lia))
      as (x & -> & Hx).
    exists x. split; [reflexivity|].
    rewrite Hx, !Qred_correct. field. exact Hf.
Qed.

Lemma calculateNPV_single_payment (v : Q) (k : nat) :
  (calculateNPV (Fin v :: repeat (Fin 0) k) (Fin 8) === Fin (v / (27 # 25)))
  = true.
Proof.
  unfold calculateNPV. cbn [npv_reduce Z.add].
  change (num_pow (Fin 1 + Fin 8 / Fin 100) 1) with (Fin (27 # 25)).
  rewrite num_div_Fin by discriminate. fin_arith.
  destruct (@npv_reduce_zeros k 1%Z (Qred (0 + Qred (v / (27 # 25))))
              ltac:(lia)) as (x & -> & Hx).
  q_equation. rewrite Hx, !Qred_correct. ring.
Qed.

Lemma allCash_netCashFlow (np : number) (k : nat) :
  forall y rs,
    map netCashFlow (for_loop k y (allCashBody np) rs)
    = map netCashFlow rs ++ repeat (Fin 0) k.
Proof.
  induction k as [|k IH]; intros y rs; cbn [for_loop repeat].
  - now rewrite app_nil_r.
  - unfold allCashBody at 1. rewrite IH, map_app, <- app_assoc. reflexivity.
Qed.

(** For every valid input the all-cash [npv] is the gross price discounted
    one year, while the net present value of the netCashFlow column is the
    net proceeds discounted one year; the two differ as soon as the tax
    rate is not 0. *)
Theorem all_cash_npv_is_gross (i : DealInputs) :
  valid_inputs i = true ->
  exists r p t,
    calculateAllCash i = Ok r
    /\ purchasePrice i = Fin p /\ taxRate i = Fin t
    /\ (npv r === Fin (p / (27 # 25))) = true
    /\ (calculateNPV (map netCashFlow (cashFlow r)) (Fin 8)
        === Fin ((p - p * (t / 100)) / (27 # 25))) = true
    /\ (0 < t ->
        (npv r === calculateNPV (map netCashFlow (cashFlow r)) (Fin 8))
        = false).
Proof.
  intros Hv.
  destruct (valid_inputs_spec i Hv)
    as (p & ir & t & Hp & Hpos & Hterm & _ & _ & _ & Ht & _).
  unfold calculateAllCash. rewrite Array_fill_ok by lia.
  eexists. exists p, t. split; [reflexivity|].
  cbn [npv cashFlow]. unfold for_years.
  rewrite allCash_netCashFlow. cbn [map netCashFlow app].
  rewrite Hp, Ht. fin_arith.
  split; [reflexivity|]. split; [reflexivity|].
  pose proof (calculateNPV_single_payment p (Z.to_nat (termLength i - 1)))
    as Hgross.
  pose proof (calculateNPV_single_payment
                (Qred (p + - Qred (p * Qred (t / 100))))
                (Z.to_nat (termLength i - 2 + 1))) as Hnet.
  destruct (calculateNPV (Fin p :: _) _) as [g| | |]; try discriminate.
  destruct (calculateNPV (Fin (Qred _) :: _) _) as [m| | |]; try discriminate.
  apply num_eqb_Fin in Hgross, Hnet.
  split; [q_equation; exact Hgross|].
  split; [q_equation; rewrite Hnet, !Qred_correct; reflexivity|].
  intros Htpos. apply Qeq_bool_false.
  rewrite Hgross, Hnet, !Qred_correct. intros Heq.
  assert (H : p == p + - (p * (t / 100))).
  { apply (Qmult_inj_r _ _ (/ (27 # 25))); [discriminate|exact Heq]. }
  assert (0 < p * (t / 100)).
  { apply Qmult_lt_0_compat; [exact Hpos|].
    apply Qlt_shift_div_l; [reflexivity|lra]. }
  lra.
Qed.

(** C2.  On the default inputs of the page the all-cash calculator
    discounts the gross price: its [npv] is 500000/1.08 = 12500000/27,
    while the net present value of its own netCashFlow column
    (375000, 0, 0, 0, 0) at 8%, by the formula of the specification and by
    [calculateNPV] alike, is 375000/1.08 = 3125000/9. *)
Theorem all_cash_npv_uses_gross_price :
  exists r,
    calculateAllCash defaultInputs = Ok r
    /\ map netCashFlow (cashFlow r) = [Fin 375000; Fin 0; Fin 0; Fin 0; Fin 0]
    /\ discounted_sum (Fin 8) 1 (map netCashFlow (cashFlow r))
       = Fin (3125000 # 9)
    /\ calculateNPV (map netCashFlow (cashFlow r)) (Fin 8) = Fin (3125000 # 9)
    /\ npv r = Fin (12500000 # 27)
    /\ (npv r === discounted_sum (Fin 8) 1 (map netCashFlow (cashFlow r)))
       = false.
Proof.
  eexists. split; [reflexivity|]. vm_compute. repeat split.
Qed.

(** ** The all-cash fixed point *)

(** C4.  All-cash fixed point: with a price of 500000, a term of 5 years
    and a tax rate of 25%, whatever the other fields, the all-cash
    calculator returns totalInvestment = 500000, netProceeds = 375000,
    roi = -25 and irr = 0. *)
Theorem all_cash_fixed_point (ir er : number) (dp bp : option number) :
  exists r,
    calculateAllCash {| purchasePrice := Fin 500000; termLength := 5;
                        interestRate := ir; taxRate := Fin 25;
                        equityRetained := er; downPayment := dp;
                        balloonPayment := bp |} = Ok r /\
    totalInvestment r = Fin 500000 /\
    netProceeds r = Fin 375000 /\
    roi r = Fin (-25) /\
    irr r = Fin 0.
Proof.
  eexists. split; [reflexivity|]. vm_compute. repeat split.
Qed.

(** ** Loops and the cumulative invariant *)

Lemma for_years_empty {S : Type} (first last : Z) (body : Z -> S -> S * bool)
    (s : S) :
  (last < first)%Z -> for_years first last body s = s.
Proof.
  intros H. unfold for_years.
  replace (Z.to_nat (last - first + 1)) with O by lia. reflexivity.
Qed.

Lemma for_loop_exact {S : Type} (I : Z -> S -> Prop)
    (body : Z -> S -> S * bool) (last : Z) :
  (forall y s, (y <= last)%Z -> I y s ->
               I (y + 1)%Z (fst (body y s))
               /\ (snd (body y s) = true -> y = last)) ->
  forall n y s, Z.of_nat n = (last - y + 1)%Z -> I y s ->
                I (last + 1)%Z (for_loop n y body s).
Proof.
  intros Hstep. induction n as [|n IH]; intros y s Hn HI; cbn [for_loop].
  - replace (last + 1)%Z with y by lia. exact HI.
  - destruct (Hstep y s ltac:(lia) HI) as [HI' Hbrk].
    destruct (body y s) as [s' brk]. cbn [fst snd] in HI', Hbrk.
    destruct brk.
    + rewrite <- (Hbrk eq_refl). exact HI'.
    + apply IH; [lia|exact HI'].
Qed.

Lemma for_loop_invariant {S : Type} (I : Z -> S -> Prop)
    (body : Z -> S -> S * bool) :
  (forall y s, I y s -> I (y + 1)%Z (fst (body y s))) ->
  forall n y s, I y s ->
  exists y', (y <= y')%Z /\ (n <> O -> y < y')%Z
             /\ I y' (for_loop n y body s).
Proof.
  intros Hstep. induction n as [|n IH]; intros y s HI; cbn [for_loop].
  - exists y. repeat split; [lia|congruence|exact HI].
  - specialize (Hstep y s HI). destruct (body y s) as [s' brk]. cbn in Hstep.
    destruct brk.
    + exists (y + 1)%Z. repeat split; [lia|lia|exact Hstep].
    + destruct (IH (y + 1)%Z s' Hstep) as (y' & Hle & _ & HI').
      exists y'. repeat split; [lia|lia|exact HI'].
Qed.







(** ** The schedule loops keep their invariant *)



(** ** The schedules of valid inputs *)


Lemma customInitialPayment_finite (i : DealInputs) :
  valid_inputs i = true -> is_finite (customInitialPayment i) = true.
Proof.
  intros Hv.
  destruct (valid_inputs_spec i Hv)
    as (p & ir & tr & Hp & _ & _ & _ & _ & _ & _ & _ & _ & Hdp & _).
  unfold customInitialPayment, num_or.
  destruct Hdp as [->|(d & -> & _)]; cbn [with_default truthy].
  - cbn. now rewrite Hp.
  - destruct (negb (Qeq_bool d 0)); [reflexivity|]. now rewrite Hp.
Qed.

Lemma customBalloonAmount_finite (i : DealInputs) :
  valid_inputs i = true -> is_finite (customBalloonAmount i) = true.
Proof.
  intros Hv.
  destruct (valid_inputs_spec i Hv)
    as (p & ir & tr & _ & _ & _ & _ & _ & _ & _ & _ & _ & _ & Hbp).
  unfold customBalloonAmount, num_or.
  destruct Hbp as [->|(d & -> & _)]; cbn [with_default truthy].
  - reflexivity.
  - now destruct (negb (Qeq_bool d 0)).
Qed.



(** ** Every calculator's rows *)


(** ** The same value *)





(** ** The shape of the schedules, whatever the numbers *)















(** ** The cumulative invariant *)



(** ** Balanced rows *)


(** In binary64 the row of year 1 of seller financing is balanced up to
    rounding only: at a price of 500000 over 7 years at 0% with 25% tax
    its netCashFlow is 117857.14285714286 while preTaxTotal + taxImpact is
    117857.14285714284. *)
Lemma seller_year_1_row_is_rounded :
  let '(preTaxTotal, taxImpact, netCashFlow) :=
    sellerYear1Row64 500000 7 25 in
  (netCashFlow =? preTaxTotal + taxImpact)%float = false
  /\ netCashFlow = 0x1.cc61249249249p+16%float
  /\ (preTaxTotal + taxImpact)%float = 0x1.cc61249249248p+16%float.
Proof. vm_compute. repeat split. Qed.



(** ** Earn-out over a single year *)

Lemma irr_sums_single (r u : Q) :
  0 < r -> 0 < u ->
  exists N D,
    irr_sums (Fin r) [Fin (- u)] 0 (Fin 0) (Fin 0) = (Fin N, Fin D)
    /\ N == - u / (1 + r)
    /\ D == u / ((1 + r) * (1 + r)).
Proof.
  intros Hr Hu.
  cbn [irr_sums Z.add]. rewrite num_add_Fin, num_pow_1.
  assert (Hf : ~ Qred (1 + r) == 0) by (rewrite Qred_correct; lra).
  rewrite (num_div_Fin _ Hf), num_add_Fin, num_mul_Fin.
  assert (Hff : ~ Qred (Qred (1 + r) * Qred (1 + r)) == 0).
  { rewrite !Qred_correct. intros H.
    apply Qmult_integral in H. destruct H as [H|H]; lra. }
  unfold of_Z. rewrite num_mul_Fin, (num_div_Fin _ Hff), num_sub_Fin.
  do 2 eexists. split; [reflexivity|].
  rewrite !Qred_correct. split; field; lra.
Qed.

Lemma irr_iterate_single (u : Q) (n : nat) :
  0 < u ->
  forall r, 0 < r -> exists r', irr_iterate n [Fin (- u)] (Fin r) = Fin r'.
Proof.
  intros Hu. induction n as [|n IH]; intros r Hr; cbn [irr_iterate].
  - now exists r.
  - destruct (irr_sums_single Hr Hu) as (N & D & -> & HN & HD).
    destruct (num_ltb (num_abs (Fin N)) tolerance); [now exists r|].
    assert (HDpos : 0 < D).
    { rewrite HD. apply Qlt_shift_div_l; nra. }
    assert (HD0 : ~ D == 0) by lra.
    rewrite (num_div_Fin _ HD0), num_sub_Fin.
    apply IH. rewrite !Qred_correct.
    assert (E : N / D == - (1 + r)).
    { rewrite HN, HD. field. lra. }
    rewrite E. lra.
Qed.

(** C6.  With [termLength = 1] the earn-out calculator returns (nothing is
    thrown: the division by [termLength - 1 = 0] yields an infinity that no
    row uses), its schedule is year 1 alone, and every number of the
    result and of its row is finite, so none is NaN. *)
Theorem earn_out_single_year (i : DealInputs) :
  valid_inputs i = true -> termLength i = 1%Z ->
  exists r,
    calculateDealStructure earn_out i = Ok r
    /\ map year (cashFlow r) = [1%Z]
    /\ results_finite r = true.
Proof.
  intros Hv Hterm.
  destruct (valid_inputs_spec i Hv)
    as (p & ir & tr & Hp & Hpos & _ & _ & _ & _ & Htr & _).
  eexists. split; [reflexivity|].
  unfold results_finite, calculateEarnOut.
  cbn [totalInvestment netProceeds roi irr npv cashFlow].
  rewrite Hterm, for_years_empty by lia.
  cbn [fst snd map year tl forallb row_finite principal interest
       equityReturns preTaxTotal taxImpact netCashFlow cumulative].
  split; [reflexivity|].
  rewrite Hp, Htr. fin_arith.
  assert (Hu : 0 < Qred (p * 0.6)) by (rewrite Qred_correct; lra).
  assert (Hu0 : ~ Qred (p * 0.6) == 0) by lra.
  rewrite (num_div_Fin _ Hu0). fin_arith.
  unfold calculateNPV. cbn [npv_reduce Z.add].
  change (num_pow (Fin 1 + Fin 8 / Fin 100) 1) with (Fin (27 # 25)).
  rewrite num_div_Fin by (intros H; discriminate H). fin_arith.
  destruct (irr_iterate_single 100 Hu (r := 0.1)) as (r' & Hr'); [reflexivity|].
  unfold calculateIRR, maxIterations. rewrite Hr', num_mul_Fin.
  reflexivity.
Qed.

Lemma earn_out_single_year_witness :
  exists r,
    calculateDealStructure earn_out
      {| purchasePrice := Fin 500000; termLength := 1;
         interestRate := Fin 5.5; taxRate := Fin 25;
         equityRetained := Fin 0; downPayment := None;
         balloonPayment := None |} = Ok r
    /\ map year (cashFlow r) = [1%Z]
    /\ results_finite r = true.
Proof.
  apply earn_out_single_year; reflexivity.
Defined.

(** ** Initial outlay *)

Lemma customInitialPayment_set (i : DealInputs) (d : Q) :
  downPayment i = Some (Fin d) -> ~ d == 0 ->
  customInitialPayment i = Fin d.
Proof.
  intros Hd Hnz. unfold customInitialPayment, num_or. rewrite Hd. cbn.
  now rewrite (Qeq_bool_false Hnz).
Qed.

Lemma customInitialPayment_unset (i : DealInputs) :
  downPayment i = None \/ (exists d, downPayment i = Some (Fin d) /\ d == 0) ->
  customInitialPayment i = purchasePrice i * Fin 0.25.
Proof.
  intros [Hd|(d & Hd & Hz)]; unfold customInitialPayment, num_or; rewrite Hd; cbn.
  - reflexivity.
  - now rewrite (Qeq_eq_bool _ _ Hz).
Qed.

(** C10, as the claim states it, fails at the smallest positive price of
    binary64: 20%, 10% and 25% of [2^-1074] round to 0, so seller
    financing, the SBA loan and the custom structure return a
    totalInvestment of 0 on a price above 0, and the ROI divides by it. *)
Lemma totalInvestment_underflows :
  (0 <? MIN_VALUE)%float = true
  /\ totalInvestment64 seller_financing MIN_VALUE None = 0%float
  /\ totalInvestment64 sba_loan MIN_VALUE None = 0%float
  /\ totalInvestment64 custom MIN_VALUE None = 0%float
  /\ (0 <? totalInvestment64 seller_financing MIN_VALUE None)%float = false.
Proof. vm_compute. repeat split. Qed.

Lemma MIN_NORMAL_positive : 0 < MIN_NORMAL.
Proof. reflexivity. Qed.

(** C10, amended.  With a price that is a normal number of binary64
    ([purchasePrice >= 2^-1022]; and the other preconditions) every
    calculator returns, its totalInvestment is a finite, strictly positive
    number, and that number is the divisor of the ROI.  The totalInvestment
    is the stated down payment of the custom structure or at least a tenth
    of [2^-1022], which is far above the smallest number of binary64
    ([2^-1074]): the product that computes it does not round to 0. *)
Theorem totalInvestment_positive (d : DealType) (i : DealInputs) :
  valid_inputs i = true ->
  num_leb (Fin MIN_NORMAL) (purchasePrice i) = true ->
  exists r t,
    calculateDealStructure d i = Ok r
    /\ totalInvestment r = Fin t
    /\ 0 < t
    /\ (MIN_NORMAL * 0.1 <= t \/ downPayment i = Some (Fin t))
    /\ roi r = (netProceeds r - Fin t) / Fin t * Fin 100.
Proof.
  intros Hv Hb.
  destruct (valid_inputs_spec i Hv)
    as (p & ir & tr & Hp & Hpos & Hterm & _ & _ & _ & _ & _ & _ & Hdp & _).
  rewrite Hp in Hb. cbn [num_leb] in Hb. apply Qle_bool_iff in Hb.
  pose proof MIN_NORMAL_positive as Hm.
  set (m := MIN_NORMAL) in *. clearbody m.
  destruct d; cbn [calculateDealStructure].
  - unfold calculateAllCash. rewrite Array_fill_ok by lia.
    eexists. exists p. split; [reflexivity|].
    cbn [totalInvestment roi netProceeds]. rewrite Hp.
    repeat split; [exact Hpos|left; lra].
  - eexists. exists (Qred (p * 0.6)). split; [reflexivity|].
    unfold calculateEarnOut. cbn [totalInvestment roi netProceeds]. rewrite Hp.
    split; [reflexivity|].
    split; [rewrite Qred_correct; lra|].
    split; [left; rewrite Qred_correct; lra|reflexivity].
  - eexists. exists (Qred (p * 0.2)). split; [reflexivity|].
    unfold calculateSellerFinancing. cbn [totalInvestment roi netProceeds].
    rewrite Hp. split; [reflexivity|].
    split; [rewrite Qred_correct; lra|].
    split; [left; rewrite Qred_correct; lra|reflexivity].
  - eexists. exists (Qred (p * 0.1)). split; [reflexivity|].
    unfold calculateSBALoan. cbn [totalInvestment roi netProceeds]. rewrite Hp.
    split; [reflexivity|].
    split; [rewrite Qred_correct; lra|].
    split; [left; rewrite Qred_correct; lra|reflexivity].
  - assert (Hdefault :
      downPayment i = None
      \/ (exists d, downPayment i = Some (Fin d) /\ d == 0) ->
      exists r t,
        Ok (calculateCustom i) = Ok r
        /\ totalInvestment r = Fin t
        /\ 0 < t
        /\ (m * 0.1 <= t \/ downPayment i = Some (Fin t))
        /\ roi r = (netProceeds r - Fin t) / Fin t * Fin 100).
    { intros H. eexists. exists (Qred (p * 0.25)). split; [reflexivity|].
      unfold calculateCustom. cbn [totalInvestment roi netProceeds].
      rewrite (customInitialPayment_unset i H), Hp.
      split; [reflexivity|].
      split; [rewrite Qred_correct; lra|].
      split; [left; rewrite Qred_correct; lra|reflexivity]. }
    destruct Hdp as [Hd|(dp & Hd & Hge)]; [now apply Hdefault; left|].
    destruct (Qeq_dec dp 0) as [Hz|Hnz]; [apply Hdefault; eauto|].
    eexists. exists dp. split; [reflexivity|].
    unfold calculateCustom. cbn [totalInvestment roi netProceeds].
    rewrite (customInitialPayment_set i Hd Hnz).
    split; [reflexivity|]. split; [|split; [right; exact Hd|reflexivity]].
    apply Qle_lt_or_eq in Hge. destruct Hge as [Hlt|Heq]; [exact Hlt|].
    exfalso. apply Hnz. symmetry. exact Heq.
Qed.

Lemma totalInvestment_positive_witness :
  valid_inputs defaultInputs = true
  /\ num_leb (Fin MIN_NORMAL) (purchasePrice defaultInputs) = true
  /\ exists r t,
       calculateDealStructure custom defaultInputs = Ok r
       /\ totalInvestment r = Fin t
       /\ 0 < t
       /\ (MIN_NORMAL * 0.1 <= t \/ downPayment defaultInputs = Some (Fin t))
       /\ roi r = (netProceeds r - Fin t) / Fin t * Fin 100.
Proof.
  split; [reflexivity|]. split; [vm_compute; reflexivity|].
  apply (totalInvestment_positive custom defaultInputs);
    [reflexivity|vm_compute; reflexivity].
Defined.

(** ** The down payment of the custom structure *)







(** ** Amortization of the financed amount *)

Lemma cashFlow_seller (i : DealInputs) :
  cashFlow (calculateSellerFinancing i) = rows (sellerSchedule i).
Proof. reflexivity. Qed.

Lemma cashFlow_sba (i : DealInputs) :
  cashFlow (calculateSBALoan i) = rows (sbaSchedule i).
Proof. reflexivity. Qed.

Lemma cashFlow_custom (i : DealInputs) :
  cashFlow (calculateCustom i) = rows (customSchedule i).
Proof. reflexivity. Qed.

Lemma sum_principal_app (rs : list CashFlowRow) (r : CashFlowRow) :
  sum_principal (rs ++ [r]) = sum_principal rs + principal r.
Proof.
  unfold sum_principal. now rewrite fold_left_app.
Qed.

Section StraightLine.

Variable n : Z.
Variables F A dp ir tr dt dn : Q.
Hypothesis rate_zero : ir == 0.
Hypothesis payment_pos : 0 < A.
Hypothesis payment_eq : F == inject_Z n * A.

Lemma sellerBody_straight_line (y : Z) (st : Schedule) :
  (y <= n)%Z -> straight_line_inv n F A dp y st ->
  straight_line_inv n F A dp (y + 1)
    (fst (sellerBody (Fin ir) (Fin tr) (Fin A) (Fin dp) (Fin dt) (Fin dn)
            y st))
  /\ (snd (sellerBody (Fin ir) (Fin tr) (Fin A) (Fin dp) (Fin dt) (Fin dn)
             y st) = true -> y = n).
Proof.
  destruct st as [rs rem cum].
  intros Hyn (Hy & Hlen & b & s & Hb & Hbq & Hs & Hsq).
  cbn [remainingBalance rows] in Hb, Hlen, Hs. subst rem.
  unfold sellerBody. cbn [remainingBalance rows cumulativeSoFar]. fin_arith.
  set (pp := Qmin (Qred (A + - Qred (b * Qred (ir / 100)))) b).
  assert (Hz : inject_Z (y + 1 - 1) == inject_Z (y - 1) + 1).
  { replace (y + 1 - 1)%Z with (y - 1 + 1)%Z by lia.
    rewrite inject_Z_plus. reflexivity. }
  assert (Hle : inject_Z (y - 1) + 1 <= inject_Z n).
  { change 1 with (inject_Z 1). rewrite <- inject_Z_plus, <- Zle_Qle. lia. }
  assert (Hpp : pp == A).
  { unfold pp. rewrite !Qred_correct, rate_zero.
    setoid_replace (A + - (b * (0 / 100)))%Q with A by field.
    apply Q.min_l. rewrite Hbq, payment_eq. nra. }
  split.
  - unfold straight_line_inv.
    destruct (Z.eqb_spec y 1) as [Ey|Ey]; cbn [fst rows remainingBalance];
      (split; [lia|]);
      (split; [rewrite length_app, Hlen; cbn [List.length]; lia|]);
      rewrite sum_principal_app, Hs; row_fields; fin_arith;
      do 2 eexists; (split; [reflexivity|]);
      (split; [|split; [reflexivity|]]);
      rewrite ?Qred_correct, Hpp, Hz;
      try (destruct (Z.eqb_spec (y + 1) 1); [lia|]);
      rewrite ?Hbq, ?Hsq; ring.
  - destruct (y =? 1)%Z; cbn [snd num_leb]; intros Hbrk;
      apply Qle_bool_iff in Hbrk;
      rewrite Qred_correct, Hpp, Hbq, payment_eq in Hbrk;
      assert (Hge : inject_Z n <= inject_Z (y - 1) + 1) by nra;
      change 1 with (inject_Z 1) in Hge;
      rewrite <- inject_Z_plus, <- Zle_Qle in Hge; lia.
Qed.

End StraightLine.

(** The zero-rate branch retires the loan: at a zero interest rate the
    seller-financing schedule has [termLength] rows,
    the balance after the last one is 0, and the principal column sums to
    the price, that is the down payment folded into year 1 plus the whole
    financed amount. *)
Theorem seller_zero_rate_amortizes (i : DealInputs) :
  valid_inputs i = true -> (interestRate i === Fin 0) = true ->
  List.length (rows (sellerSchedule i)) = Z.to_nat (termLength i)
  /\ (remainingBalance (sellerSchedule i) === Fin 0) = true
  /\ (sum_principal (rows (sellerSchedule i)) === purchasePrice i) = true.
Proof.
  intros Hv Hzero.
  destruct (valid_inputs_spec i Hv)
    as (p & ir & tr & Hp & Hpos & Hterm & Hir & Hir0 & _ & Htr & _).
  rewrite Hir in Hzero. cbn [num_eqb] in Hzero.
  unfold sellerSchedule, calculateMonthlyPayment.
  rewrite Hp, Hir, Htr. cbn [num_eqb]. rewrite Hzero. fin_arith.
  apply Qeq_bool_eq in Hzero.
  unfold of_Z. rewrite num_div_Fin by (apply inject_Z_nonzero; lia). fin_arith.
  set (F := Qred (p + - Qred (p * 0.2))).
  set (A := Qred (Qred (F / inject_Z (termLength i * 12)) * 12)).
  assert (HF : F == p * 0.8) by (unfold F; rewrite !Qred_correct; ring).
  assert (Hn : 1 <= inject_Z (termLength i))
    by (change 1 with (inject_Z 1); rewrite <- Zle_Qle; lia).
  assert (HA : F == inject_Z (termLength i) * A).
  { unfold A. rewrite !Qred_correct, inject_Z_mult. field. lra. }
  assert (HApos : 0 < A).
  { assert (0 < inject_Z (termLength i) * A) by (rewrite <- HA, HF; lra).
    nra. }
  unfold for_years.
  match goal with
  | |- context [for_loop ?k 1%Z ?body ?s0] =>
      assert (Hloop : straight_line_inv (termLength i) F A (Qred (p * 0.2))
                        (termLength i + 1) (for_loop k 1%Z body s0))
  end.
  { apply (@for_loop_exact Schedule
             (straight_line_inv (termLength i) F A (Qred (p * 0.2)))).
    - intros y s. apply sellerBody_straight_line; assumption.
    - lia.
    - split; [lia|]. split; [reflexivity|].
      exists F, 0. cbn [remainingBalance rows sum_principal fold_left].
      repeat split; try reflexivity.
      cbn [Z.sub Z.add Z.opp Z.pos_sub inject_Z]. ring. }
  destruct Hloop as (_ & Hlen & b & s & Hb & Hbq & Hs & Hsq).
  split; [rewrite Hlen; f_equal; lia|].
  rewrite Hb, Hs. split; q_equation.
  - rewrite Hbq, HA. replace (termLength i + 1 - 1)%Z with (termLength i) by lia.
    ring.
  - rewrite Hsq. destruct (Z.eqb_spec (termLength i + 1) 1); [lia|].
    replace (termLength i + 1 - 1)%Z with (termLength i) by lia.
    rewrite <- HA, HF, Qred_correct. ring.
Qed.

(** C7.  On the default inputs (5 years at 5.5%) the seller-financing
    schedule runs its full term of 5 rows, yet more than 11000 of the
    400000 financed is still owed after the last row.  The principal
    column sums to between 488000 and 489000: less the 100000 down payment
    folded into year 1, the principal payments sum to less than 389000.
    The SBA and custom schedules end above 12000 and 10000 in the same
    way. *)
Theorem amortization_leaves_a_balance :
  valid_inputs defaultInputs = true
  /\ (let st := sellerSchedule defaultInputs in
      (List.length (rows st) =? 5)%nat
      && (purchasePrice defaultInputs - purchasePrice defaultInputs * Fin 0.2
          === Fin 400000)
      && num_ltb (Fin 11000) (remainingBalance st)
      && num_ltb (Fin 488000) (sum_principal (rows st))
      && num_ltb (sum_principal (rows st) - Fin 100000) (Fin 389000)) = true
  /\ (let st := sbaSchedule defaultInputs in
      (List.length (rows st) =? 5)%nat
      && num_ltb (Fin 12000) (remainingBalance st)) = true
  /\ (let st := customSchedule defaultInputs in
      (List.length (rows st) =? 5)%nat
      && num_ltb (Fin 10000) (remainingBalance st)) = true.
Proof.
  split; [reflexivity|].
  split; [|split]; vm_compute; reflexivity.
Qed.

(** ** The balloon payment *)

Lemma for_loop_break {S : Type} (n : nat) (y : Z) (body : Z -> S -> S * bool)
    (s : S) :
  snd (body y s) = true -> for_loop (Datatypes.S n) y body s = fst (body y s).
Proof.
  intros H. cbn [for_loop]. destruct (body y s) as [s' brk].
  cbn [snd] in H. now rewrite H.
Qed.

(** Whenever the balloon covers the whole financed amount and the term is
    longer than one year, the schedule is year 1 alone and its principal
    is the initial payment plus the (non-positive) regular remainder: the
    balloon is in no row. *)
Theorem custom_balloon_covering_the_loan (i : DealInputs) :
  valid_inputs i = true -> (2 <= termLength i)%Z ->
  num_leb (customRegularFinancedAmount i) (Fin 0) = true ->
  exists row,
    cashFlow (calculateCustom i) = [row]
    /\ year row = 1%Z
    /\ (principal row
        === customInitialPayment i + customRegularFinancedAmount i) = true.
Proof.
  intros Hv Hterm Hrf.
  pose proof (customInitialPayment_finite i Hv) as Hip.
  pose proof (customBalloonAmount_finite i Hv) as Hba.
  destruct (valid_inputs_spec i Hv)
    as (p & ir & tr & Hp & Hpos & _ & Hir & Hir0 & _ & Htr & _).
  apply is_finite_Fin in Hip, Hba.
  destruct Hip as [ip Hip]. destruct Hba as [ba Hba].
  rewrite cashFlow_custom.
  unfold customSchedule, customRegularFinancedAmount, customFinancedAmount in *.
  rewrite Hip, Hba, Hp, Hir, Htr in *. fin_arith.
  revert Hrf. fin_arith. cbn [num_leb]. intros Hrf.
  set (rf := Qred (Qred (p + - ip) + - ba)) in *.
  apply Qle_bool_iff in Hrf.
  assert (Hlt : num_ltb (Fin 0) (Fin rf) = false)
    by (apply Qlt_bool_false_iff; exact Hrf).
  rewrite Hlt. fin_arith.
  unfold for_years.
  replace (Z.to_nat (termLength i - 1 + 1))
    with (S (Z.to_nat (termLength i - 1))) by lia.
  set (pp := Qmin (Qred (Qred (0 * 12) + - Qred (rf * Qred (ir / 100)))) rf).
  assert (Hpp : pp == rf).
  { unfold pp. apply Q.min_r. rewrite !Qred_correct.
    assert (0 <= ir / 100) by (apply Qle_shift_div_l; lra).
    nra. }
  assert (Hbrk : Qle_bool (Qred (rf + - pp)) 0 = true).
  { apply Qle_bool_iff. rewrite Qred_correct, Hpp. lra. }
  destruct (Z.eqb_spec 1 (termLength i)) as [E|Hne]; [lia|].
  rewrite for_loop_break; unfold customBody;
    cbn [remainingBalance rows cumulativeSoFar]; rewrite Z.eqb_refl;
    destruct (Z.eqb_spec 1 (termLength i)) as [E|_]; try lia;
    cbn [andb fst snd num_leb rows app]; fin_arith; fold pp.
  - eexists. split; [reflexivity|]. row_fields. split; [reflexivity|].
    q_equation. rewrite Hpp. ring.
  - exact Hbrk.
Qed.

(** C8.  With a balloon equal to the whole financed amount (375000) and a
    term of 5 years the custom schedule stops after year 1: its only row
    has principal 125000, the initial payment, and the balloon is in no
    row; the proceeds are the initial payment net of tax. *)
Theorem custom_balloon_lost_on_early_payoff :
  valid_inputs bulletInputs = true
  /\ customBalloonAmount bulletInputs = Fin 375000
  /\ termLength bulletInputs = 5%Z
  /\ map (fun r => (year r, principal r)) (cashFlow (calculateCustom bulletInputs))
     = [(1%Z, Fin 125000)]
  /\ sum_principal (cashFlow (calculateCustom bulletInputs)) = Fin 125000
  /\ netProceeds (calculateCustom bulletInputs) = Fin 93750.
Proof.
  rewrite cashFlow_custom.
  change (netProceeds (calculateCustom bulletInputs))
    with (cumulativeSoFar (customSchedule bulletInputs)).
  repeat split; vm_compute; reflexivity.
Qed.

(** ** Comparison mode *)

Section Batch.

Variable calculate : DealType -> DealInputs -> result DealResults.
Variable inputs : DealInputs.

Lemma fold_tryDealType (ds : list DealType) (acc : list ComparisonData)
    (page : Page) :
  fst (fold_left (tryDealType calculate inputs) ds (acc, page))
  = acc ++ collected calculate inputs ds.
Proof.
  revert acc page.
  induction ds as [|d ds IH]; intros acc page; cbn [fold_left collected].
  - now rewrite app_nil_r.
  - unfold tryDealType at 2. destruct (calculate d inputs) as [r|e].
    + rewrite IH, <- app_assoc. reflexivity.
    + apply IH.
Qed.

Lemma fold_tryDealType_toasts (ds : list DealType) (acc : list ComparisonData)
    (page : Page) (t : Toast) :
  In t (toasts page) ->
  In t (toasts (snd (fold_left (tryDealType calculate inputs) ds (acc, page)))).
Proof.
  revert acc page.
  induction ds as [|d ds IH]; intros acc page Hin; cbn [fold_left].
  - exact Hin.
  - unfold tryDealType at 2. destruct (calculate d inputs) as [r|e].
    + now apply IH.
    + apply IH. cbn. apply in_or_app. now left.
Qed.

Lemma fold_tryDealType_reports (ds : list DealType) (acc : list ComparisonData)
    (page : Page) (d : DealType) (e : exn) :
  In d ds -> calculate d inputs = Throw e ->
  exists t,
    In t (toasts (snd (fold_left (tryDealType calculate inputs) ds (acc, page))))
    /\ title t = "Calculation Error"%string
    /\ destructive t = true
    /\ description t
       = ("Failed to calculate " ++ dealTypeLabels d
          ++ ". Please check your inputs.")%string.
Proof.
  revert acc page.
  induction ds as [|d' ds IH]; intros acc page Hin He; [destruct Hin|].
  cbn [fold_left]. destruct Hin as [->|Hin].
  - unfold tryDealType at 2. rewrite He.
    eexists. split.
    { apply fold_tryDealType_toasts. cbn. apply in_or_app. right. now left. }
    cbn. repeat split.
  - unfold tryDealType at 2. destruct (calculate d' inputs); now apply IH.
Qed.

Lemma collected_In (ds : list DealType) (c : ComparisonData) :
  In c (collected calculate inputs ds) <->
  exists r, In (dealType c) ds /\ calculate (dealType c) inputs = Ok r
            /\ c = comparisonOf (dealType c) r.
Proof.
  induction ds as [|d ds IH]; cbn [collected].
  - split; [intros []|intros (r & [] & _)].
  - destruct (calculate d inputs) as [r|e] eqn:E.
    + cbn [In]. rewrite IH. split.
      * intros [<-|(r' & Hin & Hc & Heq)].
        -- exists r. cbn. auto.
        -- exists r'. auto.
      * intros (r' & [<-|Hin] & Hc & Heq).
        -- left. rewrite Heq. congruence.
        -- right. exists r'. auto.
    + rewrite IH. split.
      * intros (r' & Hin & Hc & Heq). exists r'. cbn. auto.
      * intros (r' & [<-|Hin] & Hc & Heq); [congruence|].
        exists r'. auto.
Qed.

Lemma calculateDealsWith_comparisons (page : Page) :
  comparisons (calculateDealsWith calculate inputs page)
  = collected calculate inputs dealTypes.
Proof.
  unfold calculateDealsWith.
  pose proof (fold_tryDealType dealTypes [] (setIsCalculating true page)) as H.
  destruct (fold_left _ _ _) as [cs p]. exact H.
Qed.

End Batch.

Lemma dealTypes_complete (d : DealType) : In d dealTypes.
Proof. destruct d; cbn; auto 6. Qed.

(** C5.  Batch isolation: when the calculator of one deal type throws, the
    run still finishes (the flag is reset and the comparisons are set),
    every deal type whose calculator returns is in the comparison set with
    its results, the failing one is not, and it is reported by a toast. *)
Theorem batch_isolation
    (calculate : DealType -> DealInputs -> result DealResults)
    (inputs : DealInputs) (page : Page) (failing : DealType) (e : exn) :
  calculate failing inputs = Throw e ->
  let page' := calculateDealsWith calculate inputs page in
  isCalculating page' = false
  /\ ~ In failing (map dealType (comparisons page'))
  /\ (forall d r, calculate d inputs = Ok r ->
                  In (comparisonOf d r) (comparisons page'))
  /\ (exists t, In t (toasts page')
                /\ destructive t = true
                /\ description t
                   = ("Failed to calculate " ++ dealTypeLabels failing
                      ++ ". Please check your inputs.")%string).
Proof.
  intros He page'. subst page'.
  rewrite calculateDealsWith_comparisons.
  split; [|split; [|split]].
  - unfold calculateDealsWith. now destruct (fold_left _ _ _).
  - intros Hin. apply in_map_iff in Hin. destruct Hin as (c & Hd & Hin).
    apply collected_In in Hin. destruct Hin as (r & _ & Hc & _).
    rewrite Hd in Hc. congruence.
  - intros d r Hr. apply collected_In. exists r. cbn [dealType comparisonOf].
    split; [apply dealTypes_complete|]. split; [exact Hr|reflexivity].
  - unfold calculateDealsWith.
    destruct (fold_tryDealType_reports calculate inputs dealTypes []
                (setIsCalculating true page) failing (dealTypes_complete failing) He)
      as (t & Hin & _ & Hd & Hdesc).
    destruct (fold_left _ _ _) as [cs p]. cbn in Hin.
    exists t. repeat split; auto. cbn. apply in_or_app. now left.
Qed.

Lemma batch_isolation_witness :
  calculateDealStructure all_cash zeroTermInputs
  = Throw (RangeError "Invalid array length")
  /\ isCalculating (calculateDeals zeroTermInputs emptyPage) = false
  /\ ~ In all_cash (map dealType (comparisons (calculateDeals zeroTermInputs emptyPage)))
  /\ In (comparisonOf custom (calculateCustom zeroTermInputs))
        (comparisons (calculateDeals zeroTermInputs emptyPage)).
Proof.
  assert (H : calculateDealStructure all_cash zeroTermInputs
              = Throw (RangeError "Invalid array length")) by reflexivity.
  split; [exact H|].
  destruct (batch_isolation calculateDealStructure zeroTermInputs emptyPage
              all_cash H) as (Hflag & Hout & Hin & _).
  split; [exact Hflag|]. split; [exact Hout|].
  apply Hin. reflexivity.
Defined.

(* ================================================================= *)
(** * Further properties of the code *)

(** ** The internal rate of return *)

Lemma num_add_NaN_r (x : number) : x + NaN = NaN.
Proof. now destruct x. Qed.

Lemma num_div_NaN_r (x : number) : x / NaN = NaN.
Proof. now destruct x. Qed.

Lemma irr_sums_NaN_npv (rate : number) (cfs : list number) :
  forall j d, fst (irr_sums rate cfs j NaN d) = NaN.
Proof.
  induction cfs as [|cf cfs IH]; intros j d; cbn [irr_sums]; [reflexivity|].
  apply IH.
Qed.

Lemma irr_sums_with_NaN (rate : number) (cfs : list number) :
  In NaN cfs ->
  forall j npv d, fst (irr_sums rate cfs j npv d) = NaN.
Proof.
  induction cfs as [|cf cfs IH]; intros Hin j npv d; [destruct Hin|].
  cbn [irr_sums]. destruct Hin as [->|Hin].
  - cbn [num_div]. rewrite num_add_NaN_r. apply irr_sums_NaN_npv.
  - now apply IH.
Qed.

Lemma irr_sums_at_NaN (cfs : list number) :
  cfs <> [] ->
  forall j npv d, (0 <= j)%Z -> fst (irr_sums NaN cfs j npv d) = NaN.
Proof.
  destruct cfs as [|cf cfs]; [congruence|]. intros _ j npv d Hj.
  cbn [irr_sums]. rewrite num_add_NaN_r.
  destruct (j + 1)%Z as [|q|q] eqn:E; try lia.
  cbn [num_pow pow_pos]. rewrite num_div_NaN_r, num_add_NaN_r.
  apply irr_sums_NaN_npv.
Qed.

Lemma irr_iterate_at_NaN (cfs : list number) (n : nat) :
  cfs <> [] -> irr_iterate n cfs NaN = NaN.
Proof.
  intros Hne. induction n as [|n IH]; cbn [irr_iterate]; [reflexivity|].
  pose proof (@irr_sums_at_NaN cfs Hne 0%Z (Fin 0) (Fin 0) ltac:(lia)) as H.
  destruct (irr_sums NaN cfs 0 (Fin 0) (Fin 0)) as [npv d]. cbn [fst] in H.
  subst npv. cbn [num_abs num_ltb]. exact IH.
Qed.

Lemma irr_iterate_with_NaN (cfs : list number) (n : nat) (r0 : number) :
  In NaN cfs -> irr_iterate (S n) cfs r0 = NaN.
Proof.
  intros Hin. cbn [irr_iterate].
  pose proof (@irr_sums_with_NaN r0 cfs Hin 0%Z (Fin 0) (Fin 0)) as H.
  destruct (irr_sums r0 cfs 0 (Fin 0) (Fin 0)) as [npv d]. cbn [fst] in H.
  subst npv. cbn [num_abs num_ltb num_div].
  unfold num_sub. cbn [num_neg]. rewrite num_add_NaN_r.
  apply irr_iterate_at_NaN. intros ->. destruct Hin.
Qed.

(** A cash flow that is NaN makes the rate NaN: the tolerance test fails
    on it, the first Newton step turns the rate into NaN and it stays so
    for the 99 iterations left. *)
Theorem calculateIRR_propagates_NaN (cfs : list number) :
  In NaN cfs -> calculateIRR cfs = NaN.
Proof.
  intros Hin. unfold calculateIRR, maxIterations.
  now rewrite (@irr_iterate_with_NaN cfs 99 (Fin 0.1) Hin).
Qed.

Lemma calculateIRR_propagates_NaN_witness :
  calculateIRR [Fin (-100); NaN; Fin 60] = NaN.
Proof.
  apply calculateIRR_propagates_NaN. cbn. auto.
Defined.

Lemma irr_sums_zero_flows (r : Q) (k : nat) :
  0 < r ->
  forall j a d, (0 <= j)%Z ->
  exists x,
    fst (irr_sums (Fin r) (repeat (Fin 0) k) j (Fin a) d) = Fin x /\ x == a.
Proof.
  intros Hr. induction k as [|k IH]; intros j a d Hj; cbn [repeat irr_sums].
  - exists a. split; reflexivity.
  - fin_arith. destruct (j + 1)%Z as [|q|q] eqn:E; try lia.
    cbn [num_pow pow_pos].
    assert (Hf : 0 < Qpower_positive (Qred (1 + r)) q).
    { apply (Qpower_0_lt (Qred (1 + r)) (Z.pos q)). rewrite Qred_correct. lra. }
    set (f := Qpower_positive (Qred (1 + r)) q) in *.
    rewrite num_div_Fin by lra. fin_arith.
    rewrite <- E.
    destruct (IH (j + 1)%Z (Qred (a + Qred (0 / f)))
                (d - of_Z (j + 1) * Fin 0 / (Fin f * Fin (Qred (1 + r))))
                ltac:(lia)) as (x & Hx & Hxa).
    exists x. split; [exact Hx|]. rewrite Hxa, !Qred_correct. field. lra.
Qed.

(** On cash flows that are all 0, the empty sequence included, the net
    present value at the first guess is 0, so the loop stops at once and
    the rate returned is the 10% guess. *)
Theorem calculateIRR_of_zero_flows (k : nat) :
  calculateIRR (repeat (Fin 0) k) = Fin 10.
Proof.
  unfold calculateIRR, maxIterations. cbn [irr_iterate].
  destruct (@irr_sums_zero_flows 0.1 k eq_refl 0%Z 0 (Fin 0) ltac:(lia))
    as (x & Hx & Hx0).
  destruct (irr_sums (Fin 0.1) (repeat (Fin 0) k) 0 (Fin 0) (Fin 0))
    as [npv d]. cbn [fst] in Hx. subst npv.
  assert (Hlt : num_ltb (num_abs (Fin x)) tolerance = true).
  { unfold tolerance. cbn [num_abs num_ltb]. apply Qlt_bool_iff.
    rewrite Hx0. reflexivity. }
  rewrite Hlt. reflexivity.
Qed.

(** ** All-cash *)

Lemma allCash_rows (np : number) (k : nat) :
  forall y rs,
  exists zs,
    for_loop k y (allCashBody np) rs = rs ++ zs
    /\ List.length zs = k
    /\ Forall (fun row => netCashFlow row = Fin 0 /\ cumulative row = np) zs.
Proof.
  induction k as [|k IH]; intros y rs; cbn [for_loop].
  - exists []. rewrite app_nil_r. repeat split. constructor.
  - unfold allCashBody at 1.
    match goal with
    | |- context [for_loop k _ _ (rs ++ [?z])] =>
        destruct (IH (y + 1)%Z (rs ++ [z])) as (zs & -> & Hlen & Hzs);
        exists (z :: zs)
    end.
    rewrite <- app_assoc. split; [reflexivity|]. split; [cbn; lia|].
    constructor; [split; reflexivity|exact Hzs].
Qed.

Lemma array_length_whole (q : Q) (n : Z) :
  q == inject_Z n -> (0 <= n < 2 ^ 32)%Z ->
  array_length (Fin q) = Some (Z.to_nat n).
Proof.
  intros E Hn. unfold array_length.
  assert (Hf : Qfloor q = n) by (rewrite E; apply Qfloor_Z).
  rewrite Hf.
  replace (Qeq_bool (inject_Z n) q) with true
    by (symmetry; apply Qeq_bool_iff; now symmetry).
  replace (0 <=? n)%Z with true by (symmetry; apply Z.leb_le; lia).
  replace (n <? 2 ^ 32)%Z with true by (symmetry; apply Z.ltb_lt; lia).
  reflexivity.
Qed.

Lemma array_length_fraction (q : Q) :
  ~ (exists n, (0 <= n)%Z /\ q == inject_Z n) ->
  array_length (Fin q) = None.
Proof.
  intros H. unfold array_length.
  destruct (Qeq_bool (inject_Z (Qfloor q)) q) eqn:E; [|reflexivity].
  destruct (0 <=? Qfloor q)%Z eqn:E0; [|reflexivity].
  exfalso. apply H. exists (Qfloor q). split.
  - now apply Z.leb_le.
  - symmetry. now apply Qeq_bool_iff.
Qed.

(** On a whole term the calculator on any number is the calculator of the
    claims. *)
Lemma calculateAllCashAt_whole (i : DealInputs) :
  (termLength i <= 2 ^ 32)%Z ->
  calculateAllCashAt (inject_Z (termLength i)) i = calculateAllCash i.
Proof.
  intros Hhi. unfold calculateAllCashAt, calculateAllCash.
  rewrite Qfloor_Z.
  assert (E : Fin (inject_Z (termLength i)) - Fin 1
              = Fin (Qred (inject_Z (termLength i - 1)))).
  { fin_arith. apply (f_equal Fin), Qred_complete. unfold Zminus.
    rewrite inject_Z_plus. reflexivity. }
  rewrite E. unfold Array_fill_number, Array_fill.
  destruct (termLength i - 1 <? 0)%Z eqn:Eneg.
  - apply Z.ltb_lt in Eneg.
    rewrite array_length_fraction; [reflexivity|].
    intros (n & Hn & Hq). rewrite Qred_correct in Hq.
    rewrite inject_Z_injective in Hq. lia.
  - apply Z.ltb_ge in Eneg.
    rewrite (@array_length_whole _ (termLength i - 1));
      [reflexivity|apply Qred_correct|lia].
Qed.

(** Within the form's bound of 30 years the all-cash calculator returns
    exactly on a term that is a whole number from 1 up, with one row per
    year; on every other term, a fraction such as 2.5 or a number below 1,
    [Array(termLength - 1)] throws a RangeError. *)
Theorem calculateAllCash_throws_iff (termLength : Q) (i : DealInputs) :
  termLength <= 30 ->
  ((exists n, (1 <= n)%Z /\ termLength == inject_Z n) ->
   exists r,
     calculateAllCashAt termLength i = Ok r
     /\ inject_Z (Z.of_nat (List.length (cashFlow r))) == termLength)
  /\ (~ (exists n, (1 <= n)%Z /\ termLength == inject_Z n) ->
      calculateAllCashAt termLength i
      = Throw (RangeError "Invalid array length")).
Proof.
  intros Hhi. split.
  - intros (n & Hn & E).
    assert (Hn30 : (n <= 30)%Z).
    { rewrite E in Hhi. change 30 with (inject_Z 30) in Hhi.
      now rewrite <- Zle_Qle in Hhi. }
    assert (Hf : Qfloor termLength = n) by (rewrite E; apply Qfloor_Z).
    unfold calculateAllCashAt, Array_fill_number. rewrite Hf. fin_arith.
    rewrite (@array_length_whole _ (n - 1)).
    + eexists. split; [reflexivity|]. cbn [cashFlow]. unfold for_years.
      match goal with
      | |- context [for_loop ?k ?y (allCashBody ?np) ?rs] =>
          destruct (allCash_rows np k y rs) as (zs & -> & Hlen & _)
      end.
      rewrite length_app, Hlen, E. cbn [List.length].
      apply inject_Z_injective. lia.
    + rewrite Qred_correct, E. unfold Zminus.
      rewrite inject_Z_plus. reflexivity.
    + lia.
  - intros Hnot. unfold calculateAllCashAt, Array_fill_number. fin_arith.
    rewrite array_length_fraction; [reflexivity|].
    intros (n & Hn & E). apply Hnot. exists (n + 1)%Z. split; [lia|].
    rewrite inject_Z_plus, <- E. rewrite Qred_correct. ring.
Qed.

Lemma calculateAllCash_throws_iff_witness :
  snd (validateForm fractionalTermForm) = true
  /\ form_termLength fractionalTermForm = Fin 2.5
  /\ calculateAllCashAt 2.5 defaultInputs
     = Throw (RangeError "Invalid array length").
Proof.
  split; [reflexivity|]. split; [reflexivity|].
  apply (@calculateAllCash_throws_iff 2.5 defaultInputs).
  - discriminate.
  - intros (n & Hn & E).
    assert (H : Qfloor 2.5 = n) by (rewrite E; apply Qfloor_Z).
    cbv in H. subst n. discriminate E.
Defined.

(** The seller never gains on an all-cash offer: on valid inputs the
    return on investment is not above 0, the net proceeds are not above
    the price paid, the internal rate of return is reported as 0, and
    every row after the first carries no cash flow and repeats the net
    proceeds as its cumulative. *)
Theorem calculateAllCash_never_gains (i : DealInputs) :
  valid_inputs i = true ->
  exists r,
    calculateAllCash i = Ok r
    /\ num_leb (roi r) (Fin 0) = true
    /\ num_leb (netProceeds r) (totalInvestment r) = true
    /\ num_leb (Fin 0) (netProceeds r) = true
    /\ irr r = Fin 0
    /\ (forall row, In row (tl (cashFlow r)) ->
          netCashFlow row = Fin 0 /\ cumulative row = netProceeds r).
Proof.
  intros Hv.
  destruct (valid_inputs_spec i Hv)
    as (p & ir & t & Hp & Hpos & Hterm & _ & _ & _ & Ht & Ht0 & Ht1 & _).
  unfold calculateAllCash. rewrite Array_fill_ok by lia.
  eexists. split; [reflexivity|].
  cbn [roi cashFlow netProceeds totalInvestment irr].
  assert (Htax : 0 <= p * (t / 100)).
  { apply Qmult_le_0_compat; [lra|]. apply Qle_shift_div_l; lra. }
  assert (Hnet : 0 <= p * (1 - t / 100)).
  { apply Qmult_le_0_compat; [lra|].
    assert (t / 100 <= 1) by (apply Qle_shift_div_r; lra). lra. }
  split; [|split; [|split; [|split; [reflexivity|]]]].
  - rewrite Hp, Ht. fin_arith. rewrite num_div_Fin by lra. fin_arith.
    cbn [num_leb]. apply Qle_bool_iff. rewrite !Qred_correct.
    assert (H : (p + - (p * (t / 100)) + - p) / p <= 0).
    { apply Qle_shift_div_r; lra. }
    lra.
  - rewrite Hp, Ht. fin_arith. cbn [num_leb]. apply Qle_bool_iff.
    rewrite !Qred_correct. lra.
  - rewrite Hp, Ht. fin_arith. cbn [num_leb]. apply Qle_bool_iff.
    rewrite !Qred_correct. lra.
  - unfold for_years.
    match goal with
    | |- context [for_loop ?k ?y (allCashBody ?np) ?rs] =>
        destruct (allCash_rows np k y rs) as (zs & -> & _ & Hzs)
    end.
    cbn [app tl]. intros row Hin. rewrite Forall_forall in Hzs.
    exact (Hzs row Hin).
Qed.

Lemma calculateAllCash_never_gains_witness :
  exists r,
    calculateAllCash defaultInputs = Ok r
    /\ num_leb (roi r) (Fin 0) = true
    /\ num_leb (netProceeds r) (totalInvestment r) = true
    /\ num_leb (Fin 0) (netProceeds r) = true
    /\ irr r = Fin 0
    /\ (forall row, In row (tl (cashFlow r)) ->
          netCashFlow row = Fin 0 /\ cumulative row = netProceeds r).
Proof.
  apply (calculateAllCash_never_gains defaultInputs). reflexivity.
Defined.

(** ** Earn-out *)

Lemma earnOut_rows (a tr : number) (k : nat) :
  forall y rs cum,
  exists zs,
    fst (for_loop k y (earnOutBody a tr) (rs, cum)) = rs ++ zs
    /\ List.length zs = k
    /\ Forall (fun row =>
                 principal row = a /\ interest row = Fin 0
                 /\ preTaxTotal row = a
                 /\ taxImpact row = - (a * (tr / Fin 100))
                 /\ netCashFlow row = a - a * (tr / Fin 100)) zs.
Proof.
  induction k as [|k IH]; intros y rs cum; cbn [for_loop].
  - exists []. cbn [fst]. rewrite app_nil_r. repeat split. constructor.
  - unfold earnOutBody at 1.
    match goal with
    | |- context [for_loop k _ _ (rs ++ [?z], ?c)] =>
        destruct (IH (y + 1)%Z (rs ++ [z]) c) as (zs & -> & Hlen & Hzs);
        exists (z :: zs)
    end.
    rewrite <- app_assoc. split; [reflexivity|]. split; [cbn; lia|].
    constructor; [repeat split|exact Hzs].
Qed.

(** With a term of two years or more the earn-out schedule has one row
    per year: year 1 pays 60% of the price, and every later year pays the
    same instalment, 40% of the price divided by [termLength - 1], free of
    interest, of which the seller keeps the part left by the tax, not
    below 0 and not above the instalment. *)
Theorem earn_out_instalments_are_level (i : DealInputs) :
  valid_inputs i = true -> (2 <= termLength i)%Z ->
  let annualEarnOut := purchasePrice i * Fin 0.4 / of_Z (termLength i - 1) in
  exists first rest,
    cashFlow (calculateEarnOut i) = first :: rest
    /\ List.length rest = Z.to_nat (termLength i - 1)
    /\ principal first = purchasePrice i * Fin 0.6
    /\ Forall (fun row =>
                 principal row = annualEarnOut
                 /\ interest row = Fin 0
                 /\ preTaxTotal row = annualEarnOut
                 /\ netCashFlow row
                    = annualEarnOut - annualEarnOut * (taxRate i / Fin 100)
                 /\ num_leb (Fin 0) (netCashFlow row) = true
                 /\ num_leb (netCashFlow row) (principal row) = true) rest.
Proof.
  intros Hv Hn annualEarnOut.
  destruct (valid_inputs_spec i Hv)
    as (p & ir & tr & Hp & Hpos & Hterm & _ & _ & _ & Htr & Htr0 & Htr1 & _).
  unfold calculateEarnOut. cbn [cashFlow]. unfold for_years.
  match goal with
  | |- context [for_loop ?k ?y (earnOutBody ?a ?t) (?rs, ?c)] =>
      destruct (earnOut_rows a t k y rs c) as (zs & -> & Hlen & Hzs)
  end.
  cbn [app]. do 2 eexists. split; [reflexivity|].
  split; [rewrite Hlen; lia|]. split; [reflexivity|].
  assert (Ha : exists a, annualEarnOut = Fin a /\ 0 <= a).
  { unfold annualEarnOut. rewrite Hp. fin_arith. unfold of_Z.
    rewrite num_div_Fin by (apply inject_Z_nonzero; lia). fin_arith.
    eexists. split; [reflexivity|]. rewrite !Qred_correct.
    assert (Hd : 0 < inject_Z (termLength i - 1))
      by (change 0 with (inject_Z 0); rewrite <- Zlt_Qlt; lia).
    apply Qle_shift_div_l; lra. }
  destruct Ha as (a & Ea & Ha).
  assert (Ht0 : 0 <= tr / 100) by (apply Qle_shift_div_l; lra).
  assert (Ht1 : tr / 100 <= 1) by (apply Qle_shift_div_r; lra).
  eapply Forall_impl; [|exact Hzs].
  intros row (H1 & H2 & H3 & _ & H5). fold annualEarnOut in H1, H3, H5.
  rewrite H1, H5. repeat split; try assumption;
    rewrite Ea, Htr; fin_arith; cbn [num_leb]; apply Qle_bool_iff;
    rewrite !Qred_correct; nra.
Qed.

Lemma earn_out_instalments_are_level_witness :
  let annualEarnOut :=
    purchasePrice defaultInputs * Fin 0.4
    / of_Z (termLength defaultInputs - 1) in
  exists first rest,
    cashFlow (calculateEarnOut defaultInputs) = first :: rest
    /\ List.length rest = Z.to_nat (termLength defaultInputs - 1)
    /\ principal first = purchasePrice defaultInputs * Fin 0.6
    /\ Forall (fun row =>
                 principal row = annualEarnOut
                 /\ interest row = Fin 0
                 /\ preTaxTotal row = annualEarnOut
                 /\ netCashFlow row
                    = annualEarnOut
                      - annualEarnOut * (taxRate defaultInputs / Fin 100)
                 /\ num_leb (Fin 0) (netCashFlow row) = true
                 /\ num_leb (netCashFlow row) (principal row) = true) rest.
Proof.
  apply (@earn_out_instalments_are_level defaultInputs); [reflexivity|].
  cbn. lia.
Defined.

(** With a term of one year the earn-out schedule is the upfront payment
    alone: the principal column and the net proceeds cover 60% of the
    price, and the 40% earn-out is in no row. *)
Theorem single_year_earn_out_pays_the_upfront_only (i : DealInputs) :
  valid_inputs i = true -> termLength i = 1%Z ->
  (sum_principal (cashFlow (calculateEarnOut i))
   === purchasePrice i * Fin 0.6) = true
  /\ (netProceeds (calculateEarnOut i)
      === purchasePrice i * Fin 0.6
          - purchasePrice i * Fin 0.6 * (taxRate i / Fin 100)) = true.
Proof.
  intros Hv Hterm.
  destruct (valid_inputs_spec i Hv)
    as (p & ir & tr & Hp & Hpos & _ & _ & _ & _ & Htr & _).
  unfold calculateEarnOut. cbn [cashFlow netProceeds].
  rewrite Hterm, for_years_empty by lia.
  cbn [fst snd sum_principal fold_left principal].
  rewrite Hp, Htr. fin_arith.
  split; q_equation; ring.
Qed.

Lemma single_year_earn_out_pays_the_upfront_only_witness :
  let i := {| purchasePrice := Fin 500000; termLength := 1;
              interestRate := Fin 5.5; taxRate := Fin 25;
              equityRetained := Fin 0; downPayment := None;
              balloonPayment := None |} in
  (sum_principal (cashFlow (calculateEarnOut i))
   === purchasePrice i * Fin 0.6) = true
  /\ (netProceeds (calculateEarnOut i)
      === purchasePrice i * Fin 0.6
          - purchasePrice i * Fin 0.6 * (taxRate i / Fin 100)) = true.
Proof.
  apply single_year_earn_out_pays_the_upfront_only; reflexivity.
Defined.

(** ** Length of the schedules and early payoff *)

Lemma for_loop_schedule (body : Z -> Schedule -> Schedule * bool) :
  (forall y s,
     List.length (rows (fst (body y s))) = S (List.length (rows s))
     /\ snd (body y s) = num_leb (remainingBalance (fst (body y s))) (Fin 0)) ->
  forall n y s, n <> O ->
    stopped_or_full n (List.length (rows s)) (for_loop n y body s)
    /\ (List.length (rows s) < List.length (rows (for_loop n y body s)))%nat.
Proof.
  intros Hbody. induction n as [|n IH]; intros y s Hn; [congruence|].
  cbn [for_loop]. destruct (Hbody y s) as [Hlen Hbrk].
  destruct (body y s) as [s' brk]. cbn [fst snd] in Hlen, Hbrk.
  destruct brk.
  - split; [split|]; try lia. intros _. now rewrite <- Hbrk.
  - destruct n as [|n].
    + cbn [for_loop]. split; [split|]; lia.
    + destruct (IH (y + 1)%Z s' ltac:(congruence)) as [[Hb He] Hlt].
      rewrite Hlen in Hb, He, Hlt. split; [split|]; try lia.
      intros H. apply He. lia.
Qed.

Lemma sellerBody_pushes (ir tr ap dp dt dn : number) (y : Z) (s : Schedule) :
  List.length (rows (fst (sellerBody ir tr ap dp dt dn y s)))
  = S (List.length (rows s))
  /\ snd (sellerBody ir tr ap dp dt dn y s)
     = num_leb (remainingBalance (fst (sellerBody ir tr ap dp dt dn y s)))
         (Fin 0).
Proof.
  unfold sellerBody. destruct (y =? 1)%Z; cbn [fst snd rows remainingBalance];
    rewrite length_app; cbn [List.length]; split; (lia || reflexivity).
Qed.

Lemma sbaBody_pushes (pp ir tr ap dp dt : number) (y : Z) (s : Schedule) :
  List.length (rows (fst (sbaBody pp ir tr ap dp dt y s)))
  = S (List.length (rows s))
  /\ snd (sbaBody pp ir tr ap dp dt y s)
     = num_leb (remainingBalance (fst (sbaBody pp ir tr ap dp dt y s)))
         (Fin 0).
Proof.
  unfold sbaBody. destruct (y =? 1)%Z; cbn [fst snd rows remainingBalance];
    rewrite length_app; cbn [List.length]; split; (lia || reflexivity).
Qed.

Lemma customBody_pushes (n : Z) (ir tr ap ip it inn ba : number) (y : Z)
    (s : Schedule) :
  List.length (rows (fst (customBody n ir tr ap ip it inn ba y s)))
  = S (List.length (rows s))
  /\ snd (customBody n ir tr ap ip it inn ba y s)
     = num_leb
         (remainingBalance (fst (customBody n ir tr ap ip it inn ba y s)))
         (Fin 0).
Proof.
  unfold customBody. destruct (y =? 1)%Z; cbn [fst snd rows remainingBalance];
    rewrite length_app; cbn [List.length]; split; (lia || reflexivity).
Qed.

(** Early-payoff termination.  With a term of at least one year, each of
    the three financed schedules has at least one row and at most
    [termLength] rows, and one that is shorter than the term ended on a
    remaining balance of 0 or less. *)
Theorem financed_schedules_stop_on_payoff (i : DealInputs) :
  (1 <= termLength i)%Z ->
  Forall
    (fun st =>
       (1 <= List.length (rows st) <= Z.to_nat (termLength i))%nat
       /\ ((List.length (rows st) < Z.to_nat (termLength i))%nat ->
           num_leb (remainingBalance st) (Fin 0) = true))
    [sellerSchedule i; sbaSchedule i; customSchedule i].
Proof.
  intros Hn.
  assert (Hk : Z.to_nat (termLength i - 1 + 1) <> O) by lia.
  repeat constructor;
    unfold sellerSchedule, sbaSchedule, customSchedule, for_years;
    match goal with
    | |- context [for_loop ?k ?y ?body ?s0] =>
        destruct (@for_loop_schedule body
                    ltac:(first [ intros; apply sellerBody_pushes
                                | intros; apply sbaBody_pushes
                                | intros; apply customBody_pushes ])
                    k y s0 Hk) as [[Hb He] Hlt]
    end;
    cbn [rows List.length] in Hb, He, Hlt;
    replace (Z.to_nat (termLength i - 1 + 1)) with (Z.to_nat (termLength i))
      in * by lia;
    try lia; intros H; apply He; lia.
Qed.

Lemma financed_schedules_stop_on_payoff_witness :
  Forall
    (fun st =>
       (1 <= List.length (rows st) <= 5)%nat
       /\ ((List.length (rows st) < 5)%nat ->
           num_leb (remainingBalance st) (Fin 0) = true))
    [sellerSchedule bulletInputs; sbaSchedule bulletInputs;
     customSchedule bulletInputs].
Proof.
  apply (financed_schedules_stop_on_payoff bulletInputs). cbn. lia.
Defined.

(** ** Signs of the seller-financing schedule *)

Lemma everyday_inputs_valid (i : DealInputs) :
  everyday_inputs i = true -> valid_inputs i = true.
Proof.
  unfold everyday_inputs. rewrite !andb_true_iff. tauto.
Qed.

Lemma calculateMonthlyPayment_covers_interest (p r : Q) (n : Z) :
  0 < p -> 0 <= r -> (1 <= n)%Z ->
  exists M, calculateMonthlyPayment (Fin p) (Fin r) n = Fin M
            /\ p * (r / 100) < M * 12.
Proof.
  intros Hp Hr Hn. unfold calculateMonthlyPayment. cbn [num_eqb].
  assert (Hn1 : 1 <= inject_Z n)
    by (change 1 with (inject_Z 1); rewrite <- Zle_Qle; lia).
  destruct (Qeq_bool r 0) eqn:E.
  - apply Qeq_bool_eq in E. unfold of_Z.
    rewrite num_div_Fin by (apply inject_Z_nonzero; lia).
    eexists. split; [reflexivity|].
    rewrite Qred_correct, E, inject_Z_mult.
    change (inject_Z 12) with 12%Q.
    setoid_replace (p * (0 / 100))%Q with 0%Q by field.
    apply Qmult_lt_0_compat; [|reflexivity].
    apply Qlt_shift_div_l; lra.
  - apply Qeq_bool_neq in E.
    rewrite num_div_100, (@num_div_Fin _ 12) by discriminate.
    set (m := Qred (Qred (r / 100) / 12)).
    assert (Hm : m == r / 100 / 12)
      by (unfold m; rewrite !Qred_correct; reflexivity).
    assert (Hmpos : 0 < m).
    { rewrite Hm. apply Qlt_shift_div_l; [reflexivity|].
      apply Qlt_shift_div_l; [reflexivity|]. lra. }
    fin_arith.
    destruct (n * 12)%Z as [|q|q] eqn:En; try lia.
    cbn [num_pow pow_pos]. fin_arith.
    set (Pw := Qpower_positive (Qred (1 + m)) q).
    assert (H1 : 1 < Pw).
    { unfold Pw. apply (Qpower_1_lt_pos (Qred (1 + m)) q).
      rewrite Qred_correct. lra. }
    rewrite num_div_Fin by (rewrite Qred_correct; lra).
    eexists. split; [reflexivity|]. rewrite !Qred_correct.
    setoid_replace (p * (r / 100))%Q with (p * m * 12)%Q
      by (rewrite Hm; field).
    apply Qmult_lt_compat_r; [reflexivity|].
    apply Qlt_shift_div_l; [lra|].
    assert (0 < p * m) by (apply Qmult_lt_0_compat; assumption).
    nra.
Qed.

Section SellerSigns.

Variables ir tr ap dp dt dn F : Q.
Hypothesis ir_nonneg : 0 <= ir.
Hypothesis tr_range : 0 <= tr /\ tr <= 100.
Hypothesis payment_covers_interest : F * (ir / 100) <= ap.
Hypothesis down_nonneg : 0 <= dp /\ 0 <= dt /\ 0 <= dn.

Lemma sellerBody_signs (y : Z) (st : Schedule) :
  signs_inv F y st ->
  signs_inv F (y + 1)
    (fst (sellerBody (Fin ir) (Fin tr) (Fin ap) (Fin dp) (Fin dt) (Fin dn)
            y st)).
Proof.
  destruct st as [rs rem cum]. intros [(b & Hb & Hb0 & HbF) Hrows].
  cbn [remainingBalance rows] in Hb, Hrows. subst rem.
  destruct tr_range as [Htr0 Htr1]. destruct down_nonneg as (Hdp & Hdt & Hdn).
  assert (Hr : 0 <= ir / 100) by (apply Qle_shift_div_l; lra).
  assert (Ht : 0 <= tr / 100) by (apply Qle_shift_div_l; lra).
  assert (Ht1 : tr / 100 <= 1) by (apply Qle_shift_div_r; lra).
  assert (Hi0 : 0 <= b * (ir / 100)) by (apply Qmult_le_0_compat; assumption).
  assert (Hi1 : b * (ir / 100) <= ap).
  { eapply Qle_trans; [|exact payment_covers_interest].
    apply Qmult_le_compat_r; assumption. }
  set (int := (b * (ir / 100))%Q) in *.
  assert (Hpp : 0 <= Qmin (ap - int) b /\ Qmin (ap - int) b <= b).
  { split; [apply Q.min_glb; lra|apply Q.le_min_r]. }
  set (pp := Qmin (ap - int) b) in *.
  assert (Htax : 0 <= (pp + int) * (tr / 100))
    by (apply Qmult_le_0_compat; lra).
  assert (Hnet : (pp + int) * (tr / 100) <= pp + int).
  { assert (0 <= (pp + int) * (1 - tr / 100))
      by (apply Qmult_le_0_compat; lra).
    lra. }
  set (ptax := ((pp + int) * (tr / 100))%Q) in *.
  assert (Eint : Qred (b * Qred (ir / 100)) == int)
    by (rewrite !Qred_correct; reflexivity).
  assert (Epp : Qmin (Qred (ap + - Qred (b * Qred (ir / 100)))) b == pp).
  { unfold pp. apply Q.min_compat; [|reflexivity]. rewrite Qred_correct, Eint.
    ring. }
  assert (Eptax :
    Qred (Qred (Qmin (Qred (ap + - Qred (b * Qred (ir / 100)))) b
                + Qred (b * Qred (ir / 100))) * Qred (tr / 100)) == ptax).
  { unfold ptax. rewrite Epp, Eint, !Qred_correct. reflexivity. }
  unfold sellerBody. cbn [remainingBalance rows cumulativeSoFar]. fin_arith.
  split.
  - destruct (y =? 1)%Z; cbn [fst remainingBalance]; eexists;
      (split; [reflexivity|]); rewrite Qred_correct, Epp; lra.
  - destruct (y =? 1)%Z; cbn [fst rows]; apply Forall_app; (split; [exact Hrows|]);
      constructor; try constructor; unfold row_signs; row_fields;
      destruct cum; fin_arith; cbn [num_leb];
      rewrite !andb_true_iff, !Qle_bool_iff;
      rewrite ?Eptax, ?Epp, ?Eint, ?Qred_correct;
      rewrite ?Eptax, ?Epp, ?Eint, ?Qred_correct; repeat split; lra.
Qed.

End SellerSigns.

(** Seller financing on inputs of an everyday scale never produces a
    negative principal, a negative interest, a positive tax impact or a
    negative net cash flow, and the balance left at the end lies between 0
    and the financed amount (the price less the 20% down payment). *)
Theorem seller_financing_signs (i : DealInputs) :
  everyday_inputs i = true ->
  forallb row_signs (cashFlow (calculateSellerFinancing i)) = true
  /\ num_leb (Fin 0) (remainingBalance (sellerSchedule i)) = true
  /\ num_leb (remainingBalance (sellerSchedule i))
       (purchasePrice i - purchasePrice i * Fin 0.2) = true.
Proof.
  intros He. pose proof (everyday_inputs_valid i He) as Hv.
  change (cashFlow (calculateSellerFinancing i)) with (rows (sellerSchedule i)).
  destruct (valid_inputs_spec i Hv)
    as (p & ir & tr & Hp & Hpos & Hterm & Hir & Hir0 & _ & Htr & Htr0 & Htr1 & _).
  unfold sellerSchedule. rewrite Hp, Hir, Htr. fin_arith.
  set (F := Qred (p + - Qred (p * 0.2))).
  assert (HF : F == p * 0.8) by (unfold F; rewrite !Qred_correct; ring).
  destruct (@calculateMonthlyPayment_covers_interest F ir (termLength i))
    as (M & -> & HM); [lra|exact Hir0|lia|].
  fin_arith. unfold for_years.
  assert (Ht : 0 <= tr / 100) by (apply Qle_shift_div_l; lra).
  assert (Ht1 : tr / 100 <= 1) by (apply Qle_shift_div_r; lra).
  assert (Htax : 0 <= p * 0.2 * (tr / 100))
    by (apply Qmult_le_0_compat; lra).
  assert (Hnet : 0 <= p * 0.2 * (1 - tr / 100))
    by (apply Qmult_le_0_compat; lra).
  match goal with
  | |- context [for_loop ?k ?y0 ?body ?s0] =>
      destruct (@for_loop_invariant Schedule (signs_inv F) body) with
        (n := k) (y := y0) (s := s0)
        as (y & _ & _ & (b & Hb & Hb0 & HbF) & Hrows)
  end.
  - intros y s. apply sellerBody_signs with (tr := tr) (ir := ir).
    + exact Hir0.
    + split; lra.
    + rewrite Qred_correct. apply Qlt_le_weak. exact HM.
    + rewrite !Qred_correct. repeat split; lra.
  - split; [exists F; split; [reflexivity|split; lra]|constructor].
  - rewrite Hb. cbn [num_leb]. rewrite !Qle_bool_iff.
    split; [|split; assumption].
    apply forallb_forall. intros r Hr.
    rewrite Forall_forall in Hrows. apply Hrows. exact Hr.
Qed.

Lemma seller_financing_signs_witness :
  forallb row_signs (cashFlow (calculateSellerFinancing defaultInputs)) = true
  /\ num_leb (Fin 0) (remainingBalance (sellerSchedule defaultInputs)) = true
  /\ num_leb (remainingBalance (sellerSchedule defaultInputs))
       (purchasePrice defaultInputs - purchasePrice defaultInputs * Fin 0.2)
     = true.
Proof.
  apply (seller_financing_signs defaultInputs). reflexivity.
Defined.

(** ** Handlers of the calculator page *)

Lemma dealType_eqb_eq (a b : DealType) : dealType_eqb a b = true <-> a = b.
Proof.
  split; [|intros ->; apply String.eqb_refl].
  destruct a, b; (reflexivity || discriminate).
Qed.

Lemma standard_structures_read_core_fields (d : DealType) (i i' : DealInputs) :
  purchasePrice i = purchasePrice i' ->
  termLength i = termLength i' ->
  interestRate i = interestRate i' ->
  taxRate i = taxRate i' ->
  d <> custom ->
  calculateDealStructure d i = calculateDealStructure d i'.
Proof.
  destruct i as [p n r t e dp bp], i' as [p' n' r' t' e' dp' bp'].
  cbn [purchasePrice termLength interestRate taxRate].
  intros -> -> -> -> Hd. destruct d; try reflexivity. congruence.
Qed.

(** Switching to a deal type other than custom selects it and clears the
    two custom fields, and nothing else: the four standard structures give
    the results they gave before, and the custom structure, when it is
    calculated next, falls back on its 25% initial payment with no
    balloon. *)
Theorem leaving_custom_resets_its_fields (d : DealType) (st : Selection) :
  d <> custom ->
  let st' := handleDealTypeChange d st in
  selectedDealType st' = d
  /\ downPayment (inputs st') = None
  /\ balloonPayment (inputs st') = None
  /\ (forall d', d' <> custom ->
        calculateDealStructure d' (inputs st')
        = calculateDealStructure d' (inputs st))
  /\ customInitialPayment (inputs st')
     = purchasePrice (inputs st) * Fin 0.25
  /\ customBalloonAmount (inputs st') = Fin 0.
Proof.
  intros Hd st'. subst st'. unfold handleDealTypeChange.
  destruct (dealType_eqb d custom) eqn:E.
  - apply dealType_eqb_eq in E. contradiction.
  - cbn [negb setInputs setSelectedDealType selectedDealType inputs
         downPayment balloonPayment].
    repeat split.
    intros d' Hd'. now apply standard_structures_read_core_fields.
Qed.

Lemma leaving_custom_resets_its_fields_witness :
  let st' :=
    handleDealTypeChange seller_financing
      {| selectedDealType := custom; inputs := downPaymentInputs |} in
  selectedDealType st' = seller_financing
  /\ downPayment (inputs st') = None
  /\ balloonPayment (inputs st') = None
  /\ (forall d', d' <> custom ->
        calculateDealStructure d' (inputs st')
        = calculateDealStructure d' downPaymentInputs)
  /\ customInitialPayment (inputs st')
     = purchasePrice downPaymentInputs * Fin 0.25
  /\ customBalloonAmount (inputs st') = Fin 0.
Proof.
  apply (@leaving_custom_resets_its_fields seller_financing
           {| selectedDealType := custom; inputs := downPaymentInputs |}).
  discriminate.
Defined.

(** No calculator reads [equityRetained]: two inputs that differ in that
    field only give the same outcome for every deal type, a throw
    included. *)
Theorem equity_retained_has_no_effect (d : DealType) (i : DealInputs)
    (e : number) :
  calculateDealStructure d
    {| purchasePrice := purchasePrice i;
       termLength := termLength i;
       interestRate := interestRate i;
       taxRate := taxRate i;
       equityRetained := e;
       downPayment := downPayment i;
       balloonPayment := balloonPayment i |}
  = calculateDealStructure d i.
Proof. destruct i as [p n r t e0 dp bp], d; reflexivity. Qed.

(** ** The run of [calculateDeals] and the lookup of the results panel *)

Section Run.

Variable calculate : DealType -> DealInputs -> result DealResults.
Variable inputs : DealInputs.

Lemma find_collected (sel : DealType) (ds : list DealType) :
  NoDup ds ->
  selectedComparison (collected calculate inputs ds) sel
  = if existsb (dealType_eqb sel) ds
    then match calculate sel inputs with
         | Ok r => Some (comparisonOf sel r)
         | Throw _ => None
         end
    else None.
Proof.
  unfold selectedComparison.
  induction ds as [|d ds IH]; intros Hnd; [reflexivity|].
  inversion Hnd as [|? ? Hnotin Hnd']; subst.
  cbn [collected existsb].
  destruct (dealType_eqb sel d) eqn:E.
  - apply dealType_eqb_eq in E. subst d. cbn [orb].
    destruct (calculate sel inputs) as [r|e].
    + cbn [find comparisonOf dealType]. unfold dealType_eqb.
      now rewrite String.eqb_refl.
    + rewrite (IH Hnd').
      destruct (existsb (dealType_eqb sel) ds) eqn:Ex; [|reflexivity].
      apply existsb_exists in Ex. destruct Ex as (x & Hin & Hx).
      apply dealType_eqb_eq in Hx. subst x. contradiction.
  - cbn [orb]. destruct (calculate d inputs) as [r|e]; [|exact (IH Hnd')].
    cbn [find comparisonOf dealType].
    replace (dealType_eqb d sel) with false; [exact (IH Hnd')|].
    symmetry. destruct (dealType_eqb d sel) eqn:E'; [|reflexivity].
    apply dealType_eqb_eq in E'. subst d.
    unfold dealType_eqb in E. now rewrite String.eqb_refl in E.
Qed.

Lemma fold_tryDealType_channels (ds : list DealType)
    (acc : list ComparisonData) (page : Page) :
  let page' := snd (fold_left (tryDealType calculate inputs) ds (acc, page)) in
  toasts page'
  = (toasts page ++ map (fun f => errorToast (fst f))
                      (failures calculate inputs ds))%list
  /\ consoleErrors page'
     = (consoleErrors page ++ map errorLine (failures calculate inputs ds))%list
  /\ isCalculating page' = isCalculating page
  /\ comparisons page' = comparisons page.
Proof.
  revert acc page.
  induction ds as [|d ds IH]; intros acc page; cbn [fold_left failures].
  - cbn [snd map]. now rewrite !app_nil_r.
  - assert (E : tryDealType calculate inputs (acc, page) d
               = match calculate d inputs with
                 | Ok r => ((acc ++ [comparisonOf d r])%list, page)
                 | Throw e =>
                     (acc,
                      toast (errorToast d)
                        (console_error
                           ("Error calculating " ++ dealTypeTag d ++ ":")%string
                           e page))
                 end) by reflexivity.
    rewrite E. clear E. destruct (calculate d inputs) as [r|e].
    + apply IH.
    + destruct (IH acc
                  (toast (errorToast d)
                     (console_error
                        ("Error calculating " ++ dealTypeTag d ++ ":")%string
                        e page)))
        as (Ht & Hc & Hf & Hcs).
      cbn zeta. repeat split.
      * etransitivity; [exact Ht|].
        cbn [toast console_error toasts map fst]. now rewrite <- app_assoc.
      * etransitivity; [exact Hc|].
        cbn [toast console_error consoleErrors map fst snd errorLine].
        now rewrite <- app_assoc.
      * etransitivity; [exact Hf|]. reflexivity.
      * etransitivity; [exact Hcs|]. reflexivity.
Qed.

End Run.

(** After a run of [calculateDeals], the results panel finds the selected
    deal type exactly when its calculator returned, and then with the
    results of that calculator; a deal type that threw has no entry, so
    the panel shows that no results are available. *)
Theorem selected_comparison_after_run
    (calculate : DealType -> DealInputs -> result DealResults)
    (inputs : DealInputs) (page : Page) (selected : DealType) :
  selectedComparison (comparisons (calculateDealsWith calculate inputs page))
    selected
  = match calculate selected inputs with
    | Ok r => Some (comparisonOf selected r)
    | Throw _ => None
    end.
Proof.
  rewrite calculateDealsWith_comparisons, find_collected.
  - now destruct selected.
  - unfold dealTypes. repeat constructor; cbn; intuition discriminate.
Qed.

(** What a run of [calculateDeals] writes to its output channels: one
    error toast and one console line per deal type that threw, in the
    order of the deal types, then the completion toast, which is shown
    whether or not a deal type failed; the toasts and console lines that
    were there are kept, and the calculating flag ends false. *)
Theorem calculateDeals_channels
    (calculate : DealType -> DealInputs -> result DealResults)
    (inputs : DealInputs) (page : Page) :
  let page' := calculateDealsWith calculate inputs page in
  toasts page'
  = (toasts page
     ++ map (fun f => errorToast (fst f)) (failures calculate inputs dealTypes)
     ++ [completeToast])%list
  /\ consoleErrors page'
     = (consoleErrors page
        ++ map errorLine (failures calculate inputs dealTypes))%list
  /\ isCalculating page' = false.
Proof.
  intros page'. subst page'. unfold calculateDealsWith.
  destruct (fold_tryDealType_channels calculate inputs dealTypes []
              (setIsCalculating true page)) as (Ht & Hc & _ & _).
  destruct (fold_left _ _ _) as [cs p]. cbn [snd] in Ht, Hc.
  cbn [setIsCalculating toast setComparisons toasts consoleErrors
       isCalculating] in *.
  rewrite Ht, Hc, <- app_assoc. repeat split.
Qed.

(** On valid inputs no calculator throws: the run replaces the comparison
    set by the five structures in the order all-cash, earn-out, seller
    financing, SBA loan, custom, adds the completion toast and nothing
    else, and writes nothing to the console. *)
Theorem calculateDeals_on_valid_inputs (i : DealInputs) (page : Page) :
  valid_inputs i = true ->
  exists r,
    calculateAllCash i = Ok r
    /\ calculateDeals i page
       = {| isCalculating := false;
            comparisons :=
              [comparisonOf all_cash r;
               comparisonOf earn_out (calculateEarnOut i);
               comparisonOf seller_financing (calculateSellerFinancing i);
               comparisonOf sba_loan (calculateSBALoan i);
               comparisonOf custom (calculateCustom i)];
            toasts := (toasts page ++ [completeToast])%list;
            consoleErrors := consoleErrors page |}.
Proof.
  intros Hv.
  destruct (valid_inputs_spec i Hv) as (_ & _ & _ & _ & _ & Hterm & _).
  destruct (calculateAllCash i) as [r|e] eqn:E.
  - exists r. split; [reflexivity|].
    unfold calculateDeals, calculateDealsWith, dealTypes.
    cbn [fold_left]. unfold tryDealType. cbn [calculateDealStructure].
    rewrite E. reflexivity.
  - exfalso. revert E. unfold calculateAllCash.
    rewrite Array_fill_ok by lia. discriminate.
Qed.

Lemma calculateDeals_on_valid_inputs_witness :
  exists r,
    calculateAllCash defaultInputs = Ok r
    /\ calculateDeals defaultInputs emptyPage
       = {| isCalculating := false;
            comparisons :=
              [comparisonOf all_cash r;
               comparisonOf earn_out (calculateEarnOut defaultInputs);
               comparisonOf seller_financing
                 (calculateSellerFinancing defaultInputs);
               comparisonOf sba_loan (calculateSBALoan defaultInputs);
               comparisonOf custom (calculateCustom defaultInputs)];
            toasts := (toasts emptyPage ++ [completeToast])%list;
            consoleErrors := consoleErrors emptyPage |}.
Proof.
  apply (calculateDeals_on_valid_inputs defaultInputs emptyPage). reflexivity.
Defined.

(** ** The datasets of the cash-flow chart *)

Lemma array_set_middle (v x : number) (pre suf : list number) :
  array_set (pre ++ x :: suf) (List.length pre) v = (pre ++ v :: suf)%list.
Proof.
  induction pre as [|y pre IH]; [reflexivity|].
  cbn [app List.length array_set]. now rewrite IH.
Qed.

Lemma skipn_repeat {A : Type} (x : A) (n k : nat) :
  skipn k (repeat x n) = repeat x (n - k).
Proof.
  revert k. induction n as [|n IH]; intros k.
  - now rewrite skipn_nil.
  - destruct k as [|k]; [reflexivity|]. cbn [skipn repeat]. apply IH.
Qed.

Lemma chart_fill (m : nat) (viewType : ViewType) (rs : list CashFlowRow) :
  forall pre suf,
    (List.length pre + List.length suf = m)%nat ->
    (List.length rs <= List.length suf)%nat ->
    fold_left
      (fun data (entry : nat * CashFlowRow) =>
         let (index, row) := entry in
         if (index <? m)%nat
         then array_set data index (chartValue viewType row)
         else data)
      (combine (seq (List.length pre) (List.length rs)) rs) (pre ++ suf)%list
    = (pre ++ map (chartValue viewType) rs
       ++ skipn (List.length rs) suf)%list.
Proof.
  induction rs as [|r rs IH]; intros pre suf Hm Hle;
    cbn [List.length seq combine fold_left map app skipn].
  - reflexivity.
  - destruct suf as [|x suf]; cbn [List.length] in Hm, Hle; [lia|].
    replace (List.length pre <? m)%nat with true
      by (symmetry; apply Nat.ltb_lt; lia).
    rewrite array_set_middle.
    replace (pre ++ chartValue viewType r :: suf)%list
      with ((pre ++ [chartValue viewType r]) ++ suf)%list
      by (now rewrite <- app_assoc).
    replace (S (List.length pre))
      with (List.length (pre ++ [chartValue viewType r])%list)
      by (rewrite length_app; cbn [List.length]; lia).
    rewrite IH.
    + now rewrite <- app_assoc.
    + rewrite length_app. cbn [List.length]. lia.
    + lia.
Qed.

Lemma chartData_spec (m : nat) (viewType : ViewType) (rs : list CashFlowRow) :
  (List.length rs <= m)%nat ->
  chartData m viewType rs
  = (map (chartValue viewType) rs
     ++ repeat (Fin 0) (m - List.length rs))%list.
Proof.
  intros Hle. unfold chartData.
  pose proof (@chart_fill m viewType rs [] (repeat (Fin 0) m)) as H.
  cbn [List.length app] in H. rewrite H by (rewrite ?repeat_length; lia).
  now rewrite skipn_repeat.
Qed.

Lemma Math_max_upper (xs : list nat) (x : nat) :
  In x xs -> (x <= Math_max xs)%nat.
Proof.
  induction xs as [|y xs IH]; intros Hin; [destruct Hin|].
  cbn [Math_max fold_right]. destruct Hin as [->|Hin].
  - apply Nat.le_max_l.
  - etransitivity; [exact (IH Hin)|]. apply Nat.le_max_r.
Qed.

(** The chart of a non-empty comparison set has one label per year up to
    the longest schedule and one dataset per comparison, in order.  Each
    dataset holds the plotted value of every row of its schedule, none
    dropped, followed by zeros up to the longest schedule: a structure
    that stopped early is drawn as earning 0 (also in the cumulative
    view) in the years it does not have. *)
Theorem chart_datasets_are_zero_padded (comparisons : list ComparisonData)
    (viewType : ViewType) :
  comparisons <> [] ->
  let m :=
    Math_max (map (fun c => List.length (cashFlow (results c))) comparisons) in
  exists labels datasets,
    chartConfig comparisons viewType = Some (labels, datasets)
    /\ List.length labels = m
    /\ Forall2
         (fun c d =>
            dataset_label d = label c
            /\ List.length (data d) = m
            /\ data d
               = (map (chartValue viewType) (cashFlow (results c))
                  ++ repeat (Fin 0)
                       (m - List.length (cashFlow (results c))))%list)
         comparisons datasets.
Proof.
  intros Hne m.
  assert (Hcfg : chartConfig comparisons viewType
                 = Some (map yearLabel (seq 0 m),
                         map (fun comparison =>
                                {| dataset_label := label comparison;
                                   data :=
                                     chartData m viewType
                                       (cashFlow (results comparison));
                                   backgroundColor :=
                                     (color comparison ++ "20")%string;
                                   borderColor := color comparison |})
                           comparisons))
    by (subst m; destruct comparisons; [congruence|reflexivity]).
  rewrite Hcfg. eexists. eexists. split; [reflexivity|].
  split; [now rewrite length_map, length_seq|].
  assert (Hall : forall c, In c comparisons ->
                           (List.length (cashFlow (results c)) <= m)%nat).
  { intros c Hin. apply Math_max_upper.
    apply (in_map (fun c => List.length (cashFlow (results c)))). exact Hin. }
  clear Hcfg Hne. revert Hall. generalize m. clear m.
  induction comparisons as [|c cs' IH]; intros m Hall; cbn [map];
    constructor.
  - cbn [dataset_label data].
    rewrite chartData_spec by (apply Hall; now left).
    split; [reflexivity|]. split; [|reflexivity].
    rewrite length_app, length_map, repeat_length.
    pose proof (Hall c (or_introl eq_refl)). lia.
  - apply IH. intros c' Hin. apply Hall. now right.
Qed.

Lemma chart_datasets_are_zero_padded_witness :
  let comparisons := comparisons (calculateDeals bulletInputs emptyPage) in
  let m :=
    Math_max (map (fun c => List.length (cashFlow (results c))) comparisons) in
  exists labels datasets,
    chartConfig comparisons cumulative_view = Some (labels, datasets)
    /\ List.length labels = m
    /\ Forall2
         (fun c d =>
            dataset_label d = label c
            /\ List.length (data d) = m
            /\ data d
               = (map (chartValue cumulative_view) (cashFlow (results c))
                  ++ repeat (Fin 0)
                       (m - List.length (cashFlow (results c))))%list)
         comparisons datasets.
Proof.
  apply (@chart_datasets_are_zero_padded
           (comparisons (calculateDeals bulletInputs emptyPage))
           cumulative_view).
  unfold calculateDeals. rewrite calculateDealsWith_comparisons. discriminate.
Defined.

(** ** Validation of the input form *)

Lemma positive_check (x : number) :
  negb (truthy x) || num_leb x (Fin 0) = false <-> num_ltb (Fin 0) x = true.
Proof.
  destruct x as [q| | |]; cbn [truthy num_leb num_ltb negb orb];
    try (split; congruence).
  unfold Qlt_bool. rewrite negb_involutive.
  destruct (Qle_bool q 0) eqn:E; [rewrite orb_true_r|rewrite orb_false_r];
    cbn [negb]; [split; congruence|].
  split; [reflexivity|intros _].
  destruct (Qeq_bool q 0) eqn:E0; [|reflexivity].
  apply Qeq_bool_eq in E0.
  assert (Qle_bool q 0 = true)
    by (apply Qle_bool_iff; rewrite E0; apply Qle_refl).
  congruence.
Qed.

Lemma range_check (lo hi : Q) (x : number) :
  num_ltb x (Fin lo) || num_ltb (Fin hi) x = false
  <-> x = NaN \/ in_range lo hi x = true.
Proof.
  destruct x as [q| | |]; cbn [num_ltb in_range orb];
    try (split; [congruence|intros [H|H]; congruence]).
  - unfold Qlt_bool.
    destruct (Qle_bool lo q), (Qle_bool q hi); cbn [negb orb andb];
      (split; [intros H; try discriminate; now right
              |intros [H|H]; congruence]).
  - split; [now left|reflexivity].
Qed.

Lemma required_range_check (lo hi : Q) (x : number) :
  negb (truthy x) || num_ltb x (Fin lo) || num_ltb (Fin hi) x = false
  <-> truthy x = true /\ in_range lo hi x = true.
Proof.
  rewrite <- orb_assoc, orb_false_iff, range_check, negb_false_iff.
  split; intros [Ht H]; (split; [exact Ht|]).
  - destruct H as [->|H]; [discriminate Ht|exact H].
  - now right.
Qed.

Lemma no_keys_set_error (e : Errors) (f : Field) (msg : string) :
  no_keys (set_error e f msg) = false.
Proof. destruct f; unfold no_keys, fields, set_error; cbn [forallb Field_eqb];
  rewrite ?andb_false_r; reflexivity. Qed.

Lemma validateForm_accepts (formData : FormData) :
  snd (validateForm formData) = true
  <-> negb (truthy (form_purchasePrice formData))
      || num_leb (form_purchasePrice formData) (Fin 0) = false
      /\ negb (truthy (form_termLength formData))
         || num_ltb (form_termLength formData) (Fin 1)
         || num_ltb (Fin 30) (form_termLength formData) = false
      /\ num_ltb (form_interestRate formData) (Fin 0)
         || num_ltb (Fin 50) (form_interestRate formData) = false
      /\ negb (truthy (form_taxRate formData))
         || num_ltb (form_taxRate formData) (Fin 0)
         || num_ltb (Fin 60) (form_taxRate formData) = false
      /\ num_ltb (form_equityRetained formData) (Fin 0)
         || num_ltb (Fin 100) (form_equityRetained formData) = false.
Proof.
  unfold validateForm. cbn [snd].
  destruct (negb (truthy (form_purchasePrice formData))
            || num_leb (form_purchasePrice formData) (Fin 0));
  destruct (negb (truthy (form_termLength formData))
            || num_ltb (form_termLength formData) (Fin 1)
            || num_ltb (Fin 30) (form_termLength formData));
  destruct (num_ltb (form_interestRate formData) (Fin 0)
            || num_ltb (Fin 50) (form_interestRate formData));
  destruct (negb (truthy (form_taxRate formData))
            || num_ltb (form_taxRate formData) (Fin 0)
            || num_ltb (Fin 60) (form_taxRate formData));
  destruct (num_ltb (form_equityRetained formData) (Fin 0)
            || num_ltb (Fin 100) (form_equityRetained formData));
  rewrite ?no_keys_set_error;
  (split; [intros H; try discriminate H; repeat split
          |intros (H1 & H2 & H3 & H4 & H5); try discriminate; reflexivity]).
Qed.

(** What the validation of the form lets through, exactly: a purchase
    price above 0 (which may be infinite), a term from 1 to 30 (which need
    not be a whole number), a tax rate above 0 and at most 60 (a tax rate
    of 0 is refused), and an interest rate and an equity share within
    their ranges or not a number at all (NaN passes both checks). *)
Theorem validateForm_accepts_iff (formData : FormData) :
  snd (validateForm formData) = true
  <-> num_ltb (Fin 0) (form_purchasePrice formData) = true
      /\ in_range 1 30 (form_termLength formData) = true
      /\ (form_interestRate formData = NaN
          \/ in_range 0 50 (form_interestRate formData) = true)
      /\ (truthy (form_taxRate formData) = true
          /\ in_range 0 60 (form_taxRate formData) = true)
      /\ (form_equityRetained formData = NaN
          \/ in_range 0 100 (form_equityRetained formData) = true).
Proof.
  rewrite validateForm_accepts, positive_check, !required_range_check,
    !range_check.
  split.
  - intros (H1 & (_ & H2) & H3 & H4 & H5). auto.
  - intros (H1 & H2 & H3 & H4 & H5). repeat split; auto; try tauto.
    destruct (form_termLength formData) as [q| | |]; try discriminate H2.
    cbn [in_range truthy] in *. apply andb_true_iff in H2.
    destruct H2 as [H2 _]. apply Qle_bool_iff in H2.
    apply negb_true_iff, Qeq_bool_false. intros E. rewrite E in H2. lra.
Qed.

(** A form that passes validation meets the preconditions of the
    calculators as soon as what validation does not look at is in order:
    the price is finite, the interest rate is a number, and the two custom
    fields, when present, are not negative. *)
Theorem validated_form_is_valid (i : DealInputs) :
  snd (validateForm (formOf i)) = true ->
  is_finite (purchasePrice i) = true ->
  interestRate i <> NaN ->
  optional nonnegative (downPayment i) = true ->
  optional nonnegative (balloonPayment i) = true ->
  valid_inputs i = true.
Proof.
  rewrite validateForm_accepts, positive_check, !required_range_check,
    !range_check.
  cbn [formOf form_purchasePrice form_termLength form_interestRate
       form_taxRate form_equityRetained].
  intros (H1 & (_ & H2) & H3 & (_ & H4) & _) Hfin Hnan Hdp Hbp.
  unfold valid_inputs. rewrite Hdp, Hbp, H4, !andb_true_r.
  destruct H3 as [H3|H3]; [contradiction|]. rewrite H3, andb_true_r.
  destruct (purchasePrice i) as [p| | |]; try discriminate Hfin.
  cbn [num_ltb] in H1. rewrite H1. cbn [andb].
  unfold of_Z in H2. cbn [in_range] in H2.
  apply andb_true_iff in H2. destruct H2 as [Hlo Hhi].
  apply Qle_bool_iff in Hlo, Hhi.
  change 1%Q with (inject_Z 1) in Hlo. change 30%Q with (inject_Z 30) in Hhi.
  rewrite <- Zle_Qle in Hlo, Hhi.
  apply andb_true_iff. split; apply Z.leb_le; assumption.
Qed.

Lemma validated_form_is_valid_witness : valid_inputs defaultInputs = true.
Proof.
  apply (validated_form_is_valid defaultInputs);
    (reflexivity || discriminate).
Defined.

(** ** Editing a field of the input form *)

Lemma Field_eqb_eq (a b : Field) : Field_eqb a b = true <-> a = b.
Proof. destruct a, b; cbn; split; (reflexivity || discriminate). Qed.

Lemma Field_eqb_neq (a b : Field) : a <> b -> Field_eqb a b = false.
Proof.
  intros H. destruct (Field_eqb a b) eqn:E; [|reflexivity].
  apply Field_eqb_eq in E. contradiction.
Qed.

Lemma form_get_set (formData : FormData) (field g : Field) (v : number) :
  form_get (form_set formData field v) g
  = if Field_eqb field g then Some v else form_get formData g.
Proof. destruct field, g; reflexivity. Qed.

Lemma validateForm_rejects_falsy (formData : FormData) (field : Field)
    (v : number) :
  In field [f_purchasePrice; f_termLength; f_taxRate] ->
  form_get formData field = Some v -> truthy v = false ->
  snd (validateForm formData) = false
  /\ has_message (fst (validateForm formData) field) = true.
Proof.
  intros Hin Hget Hv. unfold validateForm.
  destruct Hin as [<-|[<-|[<-|[]]]]; cbn [form_get] in Hget;
    injection Hget as Hget; rewrite Hget, Hv; cbn [negb orb];
    repeat match goal with
           | |- context [if ?c then set_error _ _ _ else _] =>
               lazymatch c with
               | true => fail
               | _ => destruct c
               end
           end;
    cbn [fst snd]; rewrite ?no_keys_set_error; split; reflexivity.
Qed.

Section Editing.

Variable Parent : Type.
Variable onInputsChange : FormData -> Parent -> Parent.
Variable onCalculate : Parent -> Parent.

(** Editing a field stores a number that is never NaN: the parsed value,
    or 0 when the text does not parse or parses to 0.  The other fields
    and the errors of the other fields are kept, the edited field is left
    without an error message, and the parent receives the updated form
    data. *)
Theorem handleInputChange_stores_a_number (field : Field) (parsed : number)
    (formData : FormData) (errors : Errors) (parent : Parent) :
  exists errors',
    handleInputChange onInputsChange field parsed (formData, errors, parent)
    = (form_set formData field (num_or parsed (Fin 0)), errors',
       onInputsChange (form_set formData field (num_or parsed (Fin 0)))
         parent)
    /\ (exists v,
          form_get (form_set formData field (num_or parsed (Fin 0))) field
          = Some v
          /\ v <> NaN
          /\ v = if truthy parsed then parsed else Fin 0)
    /\ (forall g, g <> field ->
          form_get (form_set formData field (num_or parsed (Fin 0))) g
          = form_get formData g)
    /\ has_message (errors' field) = false
    /\ (forall g, g <> field -> errors' g = errors g).
Proof.
  eexists. split; [reflexivity|]. split; [|split; [|split]].
  - exists (num_or parsed (Fin 0)). rewrite form_get_set.
    replace (Field_eqb field field) with true
      by (symmetry; now apply Field_eqb_eq).
    split; [reflexivity|]. split; [|reflexivity].
    unfold num_or. destruct parsed; cbn [truthy]; try discriminate.
    destruct (negb (Qeq_bool q 0)); discriminate.
  - intros g Hg. rewrite form_get_set, Field_eqb_neq; [reflexivity|].
    congruence.
  - destruct (has_message (errors field)) eqn:E; [|exact E].
    unfold set_error. replace (Field_eqb field field) with true
      by (symmetry; now apply Field_eqb_eq).
    reflexivity.
  - intros g Hg. destruct (has_message (errors field)); [|reflexivity].
    unfold set_error. now rewrite Field_eqb_neq.
Qed.

(** A required field that is cleared (or set to 0) blocks the next
    calculation: after such an edit of the purchase price, the term or the
    tax rate, [handleCalculate] does not call the parent and leaves an
    error message on that field. *)
Theorem cleared_required_field_blocks_calculation (field : Field)
    (parsed : number) (st : FormData * Errors * Parent) :
  In field [f_purchasePrice; f_termLength; f_taxRate] ->
  truthy parsed = false ->
  let st1 := handleInputChange onInputsChange field parsed st in
  let st2 := handleCalculate onCalculate st1 in
  snd st2 = snd st1
  /\ fst (fst st2) = fst (fst st1)
  /\ has_message (snd (fst st2) field) = true.
Proof.
  intros Hin Hp. destruct st as [[formData errors] parent].
  unfold handleInputChange, num_or. rewrite Hp. cbn zeta.
  unfold handleCalculate.
  destruct (@validateForm_rejects_falsy (form_set formData field (Fin 0))
              field (Fin 0) Hin) as [Hno Herr].
  - rewrite form_get_set.
    replace (Field_eqb field field) with true
      by (symmetry; now apply Field_eqb_eq).
    reflexivity.
  - reflexivity.
  - destruct (validateForm (form_set formData field (Fin 0)))
      as [newErrors ok].
    cbn [fst snd] in *. subst ok. repeat split. exact Herr.
Qed.

End Editing.

Lemma cleared_required_field_blocks_calculation_witness :
  let st1 :=
    handleInputChange (fun _ (p : nat) => p) f_taxRate NaN
      (formOf defaultInputs, noErrors, O) in
  let st2 := handleCalculate S st1 in
  snd st2 = snd st1
  /\ fst (fst st2) = fst (fst st1)
  /\ has_message (snd (fst st2) f_taxRate) = true.
Proof.
  apply (@cleared_required_field_blocks_calculation nat (fun _ p => p) S
           f_taxRate NaN (formOf defaultInputs, noErrors, O)).
  - cbn. tauto.
  - reflexivity.
Defined.

(** ** A term of zero years or less *)

Lemma num_sub_NaN_l (x : number) : NaN - x = NaN.
Proof. now destruct x. Qed.

(** With a term of 0 or less, where the all-cash calculator throws, the
    three financed calculators return: their schedule is empty and their
    NPV is 0.  Seller financing then reads the last element of an empty
    array, and its IRR is NaN; the SBA loan computes the IRR of no cash
    flow at all and reports the initial guess, 10%, with net proceeds
    of 0. *)
Theorem financed_structures_without_a_term (i : DealInputs) :
  (termLength i <= 0)%Z ->
  (cashFlow (calculateSellerFinancing i) = []
   /\ npv (calculateSellerFinancing i) = Fin 0
   /\ irr (calculateSellerFinancing i) = NaN)
  /\ (cashFlow (calculateSBALoan i) = []
      /\ npv (calculateSBALoan i) = Fin 0
      /\ irr (calculateSBALoan i) = Fin 10
      /\ netProceeds (calculateSBALoan i) = Fin 0)
  /\ (cashFlow (calculateCustom i) = []
      /\ npv (calculateCustom i) = Fin 0).
Proof.
  intros Hn.
  unfold calculateSellerFinancing, calculateSBALoan, calculateCustom,
    sellerSchedule, sbaSchedule, customSchedule.
  rewrite !for_years_empty by lia.
  cbn [rows cumulativeSoFar cashFlow npv irr netProceeds map removelast app
       last_or_NaN last].
  repeat split.
  rewrite num_sub_NaN_l. unfold calculateIRR, maxIterations.
  rewrite (@irr_iterate_with_NaN _ 99 (Fin 0.1)); [reflexivity|].
  right. now left.
Qed.

Lemma financed_structures_without_a_term_witness :
  (cashFlow (calculateSellerFinancing zeroTermInputs) = []
   /\ npv (calculateSellerFinancing zeroTermInputs) = Fin 0
   /\ irr (calculateSellerFinancing zeroTermInputs) = NaN)
  /\ (cashFlow (calculateSBALoan zeroTermInputs) = []
      /\ npv (calculateSBALoan zeroTermInputs) = Fin 0
      /\ irr (calculateSBALoan zeroTermInputs) = Fin 10
      /\ netProceeds (calculateSBALoan zeroTermInputs) = Fin 0)
  /\ (cashFlow (calculateCustom zeroTermInputs) = []
      /\ npv (calculateCustom zeroTermInputs) = Fin 0).
Proof.
  apply (financed_structures_without_a_term zeroTermInputs). cbn. lia.
Defined.

(** ** The custom structure on the terms of seller financing *)

Lemma for_loop_agree {S : Type} (I : S -> Prop)
    (body1 body2 : Z -> S -> S * bool) :
  (forall y s, I s -> body1 y s = body2 y s) ->
  (forall y s, I s -> I (fst (body2 y s))) ->
  forall n y s, I s -> for_loop n y body1 s = for_loop n y body2 s.
Proof.
  intros Hsame Hkeep. induction n as [|n IH]; intros y s HI; [reflexivity|].
  cbn [for_loop]. rewrite (Hsame y s HI).
  pose proof (Hkeep y s HI) as HI'.
  destruct (body2 y s) as [s' brk]. destruct brk; [reflexivity|].
  apply IH. exact HI'.
Qed.

Lemma customBody_without_balloon (n : Z) (ir tr ap ip it inn : number)
    (y : Z) (st : Schedule) :
  remainingBalance st + Fin 0 = remainingBalance st ->
  customBody n ir tr ap ip it inn (Fin 0) y st
  = sellerBody ir tr ap ip it inn y st.
Proof.
  intros Hst. unfold customBody, sellerBody.
  change (num_ltb (Fin 0) (Fin 0)) with false. rewrite andb_false_r.
  replace (if (y =? n)%Z then Fin 0 else Fin 0) with (Fin 0)
    by (now destruct (y =? n)%Z).
  rewrite num_add_normal.
  rewrite (@num_min_normal _ _ (num_sub_normal _ _) Hst).
  reflexivity.
Qed.

(** A custom structure with 20% down and no balloon is seller financing:
    the same schedule row for row, the same total investment, net
    proceeds, ROI and NPV.  (The IRR is not part of this: the two
    calculators build its cash-flow list differently.) *)
Theorem custom_on_seller_terms (i : DealInputs) :
  valid_inputs i = true ->
  downPayment i = Some (purchasePrice i * Fin 0.2) ->
  balloonPayment i = None ->
  cashFlow (calculateCustom i) = cashFlow (calculateSellerFinancing i)
  /\ totalInvestment (calculateCustom i)
     = totalInvestment (calculateSellerFinancing i)
  /\ netProceeds (calculateCustom i)
     = netProceeds (calculateSellerFinancing i)
  /\ roi (calculateCustom i) = roi (calculateSellerFinancing i)
  /\ npv (calculateCustom i) = npv (calculateSellerFinancing i).
Proof.
  intros Hv Hdp Hbp.
  destruct (valid_inputs_spec i Hv) as (p & ir & tr & Hp & Hpos & _).
  assert (Hip : customInitialPayment i = purchasePrice i * Fin 0.2).
  { unfold customInitialPayment. rewrite Hdp, Hp. cbn [with_default].
    fin_arith. unfold num_or. cbn [truthy].
    rewrite Qeq_bool_false; [reflexivity|]. rewrite Qred_correct. lra. }
  assert (Hba : customBalloonAmount i = Fin 0).
  { unfold customBalloonAmount. rewrite Hbp. reflexivity. }
  assert (Hrf : customRegularFinancedAmount i
                = purchasePrice i - purchasePrice i * Fin 0.2).
  { unfold customRegularFinancedAmount, customFinancedAmount.
    rewrite Hip, Hba. apply num_sub_0_normal, num_sub_normal. }
  assert (Hsched : customSchedule i = sellerSchedule i).
  { unfold customSchedule, sellerSchedule. rewrite Hip, Hba, Hrf.
    replace (num_ltb (Fin 0) (purchasePrice i - purchasePrice i * Fin 0.2))
      with true.
    - unfold for_years.
      apply (@for_loop_agree Schedule
               (fun st => remainingBalance st + Fin 0 = remainingBalance st)).
      + intros y s Hs. now apply customBody_without_balloon.
      + intros y s _. unfold sellerBody.
        destruct (y =? 1)%Z; cbn [fst remainingBalance]; apply num_sub_normal.
      + cbn [remainingBalance]. apply num_sub_normal.
    - symmetry. rewrite Hp. fin_arith. cbn [num_ltb].
      apply Qlt_bool_iff. rewrite !Qred_correct. lra. }
  unfold calculateCustom, calculateSellerFinancing.
  cbn [cashFlow totalInvestment netProceeds roi npv].
  rewrite Hsched, Hip. repeat split.
Qed.

Lemma custom_on_seller_terms_witness :
  let i :=
    {| purchasePrice := Fin 500000;
       termLength := 5;
       interestRate := Fin 6;
       taxRate := Fin 25;
       equityRetained := Fin 0;
       downPayment := Some (Fin 100000);
       balloonPayment := None |} in
  cashFlow (calculateCustom i) = cashFlow (calculateSellerFinancing i)
  /\ totalInvestment (calculateCustom i)
     = totalInvestment (calculateSellerFinancing i)
  /\ netProceeds (calculateCustom i)
     = netProceeds (calculateSellerFinancing i)
  /\ roi (calculateCustom i) = roi (calculateSellerFinancing i)
  /\ npv (calculateCustom i) = npv (calculateSellerFinancing i).
Proof.
  apply (@custom_on_seller_terms
           {| purchasePrice := Fin 500000;
              termLength := 5;
              interestRate := Fin 6;
              taxRate := Fin 25;
              equityRetained := Fin 0;
              downPayment := Some (Fin 100000);
              balloonPayment := None |}); reflexivity.
Defined.

(** ** Yearly interest against a monthly payment *)

(** In binary64 an interest rate can be above 0 and its monthly rate 0
    (underflow), or above 0 and absorbed in [1 + monthlyRate], so that
    [calculateMonthlyPayment] divides by 0; neither happens from 0.01
    percent up. *)
Lemma monthlyRate_underflows :
  (0 <? 1e-322)%float = true
  /\ monthlyRate64 1e-322 = 0%float
  /\ (0 <? monthlyRate64 1e-13)%float = true
  /\ (1 + monthlyRate64 1e-13)%float = 1%float
  /\ (1 <? 1 + monthlyRate64 0.01)%float = true.
Proof. vm_compute. repeat split. Qed.

Lemma bernoulli (m : Q) (k : nat) :
  0 <= m -> 1 + inject_Z (Z.of_nat k) * m <= (1 + m) ^ Z.of_nat k.
Proof.
  intros Hm. induction k as [|k IH].
  - change (1 + 0 * m <= 1). lra.
  - rewrite Nat2Z.inj_succ. unfold Z.succ.
    rewrite Qpower_plus by lra. rewrite inject_Z_plus.
    change ((1 + m) ^ 1)%Q with (1 + m)%Q. change (inject_Z 1) with 1%Q.
    assert (H0 : 0 <= inject_Z (Z.of_nat k))
      by (change 0%Q with (inject_Z 0); rewrite <- Zle_Qle; lia).
    assert (H1 : 0 <= inject_Z (Z.of_nat k) * m * m).
    { apply Qmult_le_0_compat; [apply Qmult_le_0_compat|]; assumption. }
    assert (H2 : (1 + inject_Z (Z.of_nat k) * m) * (1 + m)
                 <= (1 + m) ^ Z.of_nat k * (1 + m)).
    { apply Qmult_le_compat_r; [exact IH|lra]. }
    lra.
Qed.

Lemma twelve_months_beat_a_year (m : Q) :
  0 < m -> 1 + 12 * m < (1 + m) ^ 12.
Proof.
  intros Hm.
  change ((1 + m) ^ 12)%Q with ((1 + m) ^ (Z.of_nat 11 + 1))%Q.
  rewrite Qpower_plus by lra.
  change ((1 + m) ^ 1)%Q with (1 + m)%Q.
  pose proof (@bernoulli m 11 ltac:(lra)) as H.
  change (inject_Z (Z.of_nat 11)) with 11%Q in H.
  assert (H1 : 0 < m * m) by (apply Qmult_lt_0_compat; assumption).
  assert (H2 : (1 + 11 * m) * (1 + m) <= (1 + m) ^ Z.of_nat 11 * (1 + m)).
  { apply Qmult_le_compat_r; [exact H|lra]. }
  lra.
Qed.

Lemma Qpower_lt_compat_base (a b : Q) (n : Z) :
  0 < a -> a < b -> (0 < n)%Z -> a ^ n < b ^ n.
Proof.
  intros Ha Hab Hn.
  assert (Hq : 1 < b / a) by (apply Qlt_shift_div_l; lra).
  pose proof (Qpower_1_lt (b / a) n Hq Hn) as H.
  rewrite Qdiv_power in H.
  pose proof (Qpower_0_lt a n Ha) as Hpos.
  assert (E : b ^ n == b ^ n / a ^ n * a ^ n) by (field; lra).
  assert (H' : 1 * a ^ n < b ^ n / a ^ n * a ^ n)
    by (apply Qmult_lt_compat_r; assumption).
  rewrite <- E in H'. lra.
Qed.

Lemma yearly_below_monthly (m : Q) (y n : Z) :
  0 < m -> (0 <= y <= n)%Z -> (1 <= n)%Z ->
  (1 + 12 * m) ^ y < (1 + m) ^ (n * 12).
Proof.
  intros Hm Hy Hn.
  apply Qle_lt_trans with ((1 + 12 * m) ^ n).
  - apply Qpower_le_compat_l; [lia|lra].
  - rewrite Z.mul_comm, Qpower_mult.
    apply Qpower_lt_compat_base; [lra| |lia].
    now apply twelve_months_beat_a_year.
Qed.

Section Unretired.

Variables (n : Z) (F ir ap Pw : Q).
Hypothesis F_pos : 0 < F.
Hypothesis ir_pos : 0 < ir.
Hypothesis Pw_gt_1 : 1 < Pw.
Hypothesis payment : ap * (Pw - 1) == F * (ir / 100) * Pw.
Hypothesis years_below_months :
  forall y, (0 <= y <= n)%Z -> (1 + ir / 100) ^ y < Pw.

Lemma next_balance (y : Z) (b : Q) :
  (1 <= y <= n)%Z ->
  b * (Pw - 1) == F * (Pw - (1 + ir / 100) ^ (y - 1)) ->
  (b - Qmin (ap - b * (ir / 100)) b) * (Pw - 1)
  == F * (Pw - (1 + ir / 100) ^ y)
  /\ 0 < b - Qmin (ap - b * (ir / 100)) b.
Proof.
  intros Hy Hb.
  assert (Hr : 0 < ir / 100) by (apply Qlt_shift_div_l; lra).
  set (r := (ir / 100)%Q) in *.
  assert (HY : (1 + r) ^ y == (1 + r) ^ (y - 1) * (1 + r)).
  { replace y with (y - 1 + 1)%Z at 1 by lia.
    rewrite Qpower_plus by lra. reflexivity. }
  pose proof (@years_below_months y ltac:(lia)) as Hlt.
  set (c := (b * (1 + r) - ap)%Q).
  assert (Hc : c * (Pw - 1) == F * (Pw - (1 + r) ^ y)).
  { setoid_replace (c * (Pw - 1))%Q
      with (b * (Pw - 1) * (1 + r) - ap * (Pw - 1))%Q by (unfold c; ring).
    rewrite Hb, payment, HY. fold r. ring. }
  assert (Hcpos : 0 < c).
  { assert (H1 : 0 < F * (Pw - (1 + r) ^ y))
      by (apply Qmult_lt_0_compat; lra).
    rewrite <- Hc in H1.
    destruct (Qlt_le_dec 0 c) as [H|H]; [exact H|exfalso].
    assert (H2 : c * (Pw - 1) <= 0 * (Pw - 1))
      by (apply Qmult_le_compat_r; lra).
    lra. }
  assert (Hmin : Qmin (ap - b * r) b == ap - b * r).
  { apply Q.min_l. unfold c in Hcpos. lra. }
  rewrite Hmin. split.
  - rewrite <- Hc. unfold c. ring.
  - unfold c in Hcpos. lra.
Qed.

Lemma balance_inv_next (y : Z) (b : Q) (st : Schedule) (r : CashFlowRow)
    (c : number) :
  (y <= n)%Z ->
  balance_inv n F (ir / 100) Pw y st ->
  remainingBalance st = Fin b ->
  balance_inv n F (ir / 100) Pw (y + 1)
    {| rows := rows st ++ [r];
       remainingBalance :=
         Fin b - num_min (Fin ap - Fin b * (Fin ir / Fin 100)) (Fin b);
       cumulativeSoFar := c |}
  /\ num_leb
       (Fin b - num_min (Fin ap - Fin b * (Fin ir / Fin 100)) (Fin b))
       (Fin 0) = false.
Proof.
  intros Hy (Hrange & Hlen & b' & Hb' & Hinv) Hb.
  rewrite Hb in Hb'. injection Hb' as <-.
  destruct (@next_balance y b ltac:(lia) Hinv) as [Hnext Hpos].
  fin_arith. cbn [num_leb].
  assert (E : Qred (b + - Qmin (Qred (ap + - Qred (b * Qred (ir / 100)))) b)
              == b - Qmin (ap - b * (ir / 100)) b).
  { rewrite Qred_correct. unfold Qminus. apply Qplus_comp; [reflexivity|].
    apply Qopp_comp. apply Q.min_compat; [|reflexivity].
    rewrite !Qred_correct. reflexivity. }
  split.
  - split; [lia|]. split.
    + cbn [rows]. rewrite length_app, Hlen. cbn [List.length]. lia.
    + cbn [remainingBalance]. eexists. split; [reflexivity|].
      rewrite E. replace (y + 1 - 1)%Z with y by lia. exact Hnext.
  - destruct (Qle_bool _ 0) eqn:Ele; [|reflexivity].
    apply Qle_bool_iff in Ele. rewrite E in Ele. lra.
Qed.

End Unretired.

Section UnretiredSchedules.

Variables (n : Z) (F ir ap Pw : Q).
Hypothesis F_pos : 0 < F.
Hypothesis ir_pos : 0 < ir.
Hypothesis Pw_gt_1 : 1 < Pw.
Hypothesis payment : ap * (Pw - 1) == F * (ir / 100) * Pw.
Hypothesis years_below_months :
  forall y, (0 <= y <= n)%Z -> (1 + ir / 100) ^ y < Pw.

Lemma sellerBody_balance (tr dp dt dn : number) (y : Z) (st : Schedule) :
  (y <= n)%Z ->
  balance_inv n F (ir / 100) Pw y st ->
  balance_inv n F (ir / 100) Pw (y + 1)
    (fst (sellerBody (Fin ir) tr (Fin ap) dp dt dn y st))
  /\ (snd (sellerBody (Fin ir) tr (Fin ap) dp dt dn y st) = true -> y = n).
Proof.
  intros Hy Hinv. pose proof Hinv as (_ & _ & b & Hb & _).
  unfold sellerBody. rewrite Hb.
  destruct (y =? 1)%Z; cbn [fst snd];
    match goal with
    | |- balance_inv _ _ _ _ _
           {| rows := _ ++ [?r]; remainingBalance := _;
              cumulativeSoFar := ?c |} /\ _ =>
        destruct (@balance_inv_next n F ir ap Pw F_pos ir_pos Pw_gt_1 payment
                    years_below_months y b st r c Hy Hinv Hb) as [H1 H2]
    end; (split; [exact H1|]); rewrite H2; discriminate.
Qed.

Lemma sbaBody_balance (pp tr dp dt : number) (y : Z) (st : Schedule) :
  (y <= n)%Z ->
  balance_inv n F (ir / 100) Pw y st ->
  balance_inv n F (ir / 100) Pw (y + 1)
    (fst (sbaBody pp (Fin ir) tr (Fin ap) dp dt y st))
  /\ (snd (sbaBody pp (Fin ir) tr (Fin ap) dp dt y st) = true -> y = n).
Proof.
  intros Hy Hinv. pose proof Hinv as (_ & _ & b & Hb & _).
  unfold sbaBody. rewrite Hb.
  destruct (y =? 1)%Z; cbn [fst snd];
    match goal with
    | |- balance_inv _ _ _ _ _
           {| rows := _ ++ [?r]; remainingBalance := _;
              cumulativeSoFar := ?c |} /\ _ =>
        destruct (@balance_inv_next n F ir ap Pw F_pos ir_pos Pw_gt_1 payment
                    years_below_months y b st r c Hy Hinv Hb) as [H1 H2]
    end; (split; [exact H1|]); rewrite H2; discriminate.
Qed.

Lemma balance_inv_end (st : Schedule) :
  (1 <= n)%Z ->
  balance_inv n F (ir / 100) Pw (n + 1) st ->
  List.length (rows st) = Z.to_nat n
  /\ num_ltb (Fin 0) (remainingBalance st) = true.
Proof.
  intros Hn (_ & Hlen & b & Hb & Hinv).
  split; [rewrite Hlen; f_equal; lia|].
  rewrite Hb. cbn [num_ltb]. apply Qlt_bool_iff.
  replace (n + 1 - 1)%Z with n in Hinv by lia.
  pose proof (@years_below_months n ltac:(lia)) as Hlt.
  assert (H1 : 0 < F * (Pw - (1 + ir / 100) ^ n))
    by (apply Qmult_lt_0_compat; lra).
  rewrite <- Hinv in H1.
  destruct (Qlt_le_dec 0 b) as [H|H]; [exact H|exfalso].
  assert (H2 : b * (Pw - 1) <= 0 * (Pw - 1))
    by (apply Qmult_le_compat_r; lra).
  lra.
Qed.

End UnretiredSchedules.

Lemma calculateMonthlyPayment_closed (p r : Q) (n : Z) :
  0 < r -> (1 <= n)%Z ->
  exists M Pw,
    calculateMonthlyPayment (Fin p) (Fin r) n = Fin M
    /\ 1 < Pw
    /\ Pw == (1 + r / 100 / 12) ^ (n * 12)
    /\ M * 12 * (Pw - 1) == p * (r / 100) * Pw.
Proof.
  intros Hr Hn. unfold calculateMonthlyPayment. cbn [num_eqb].
  rewrite Qeq_bool_false by lra.
  rewrite num_div_100, (@num_div_Fin _ 12) by discriminate.
  set (m := Qred (Qred (r / 100) / 12)).
  assert (Hm : m == r / 100 / 12)
    by (unfold m; rewrite !Qred_correct; reflexivity).
  assert (Hmpos : 0 < m).
  { rewrite Hm. apply Qlt_shift_div_l; [reflexivity|].
    apply Qlt_shift_div_l; [reflexivity|]. lra. }
  fin_arith.
  destruct (n * 12)%Z as [|q|q] eqn:En; try lia.
  cbn [num_pow pow_pos]. fin_arith.
  set (Pw := Qpower_positive (Qred (1 + m)) q).
  assert (HPw : Pw == (1 + m) ^ Z.pos q).
  { unfold Pw. rewrite Qred_correct. reflexivity. }
  assert (H1 : 1 < Pw).
  { rewrite HPw. apply Qpower_1_lt_pos. lra. }
  rewrite num_div_Fin by (rewrite Qred_correct; lra).
  eexists. exists Pw. split; [reflexivity|]. split; [exact H1|]. split.
  - rewrite HPw, Hm. reflexivity.
  - rewrite !Qred_correct.
    setoid_replace (r / 100)%Q with (m * 12)%Q by (rewrite Hm; field).
    field. lra.
Qed.

Lemma unretired_schedule (F ir : Q) (n : Z) :
  0 < F -> 0 < ir -> (1 <= n)%Z ->
  exists ap Pw,
    calculateMonthlyPayment (Fin F) (Fin ir) n * Fin 12 = Fin ap
    /\ 1 < Pw
    /\ ap * (Pw - 1) == F * (ir / 100) * Pw
    /\ (forall y, (0 <= y <= n)%Z -> (1 + ir / 100) ^ y < Pw).
Proof.
  intros HF Hir Hn.
  destruct (@calculateMonthlyPayment_closed F ir n Hir Hn)
    as (M & Pw & -> & H1 & HPw & HM).
  fin_arith. eexists. exists Pw. split; [reflexivity|]. split; [exact H1|].
  split; [rewrite Qred_correct; exact HM|].
  intros y Hy. rewrite HPw.
  assert (Hm : 0 < ir / 100 / 12).
  { apply Qlt_shift_div_l; [reflexivity|].
    apply Qlt_shift_div_l; [reflexivity|]. lra. }
  setoid_replace (1 + ir / 100)%Q with (1 + 12 * (ir / 100 / 12))%Q
    by field.
  now apply yearly_below_monthly.
Qed.

(** With an interest rate above 0 the seller-financing and SBA schedules
    never retire their loan on inputs of an everyday scale (where a rate
    above 0 is at least 0.01 percent): they run the whole term, no early
    payoff ever happens, and the balance left after the last year is above
    0.  The payment is sized for monthly compounding while interest is
    charged once a year on the opening balance, and twelve months of
    compounding outgrow one year of simple interest. *)
Theorem yearly_interest_never_retires_the_loan (i : DealInputs) :
  everyday_inputs i = true ->
  num_ltb (Fin 0) (interestRate i) = true ->
  Forall
    (fun st =>
       List.length (rows st) = Z.to_nat (termLength i)
       /\ num_ltb (Fin 0) (remainingBalance st) = true)
    [sellerSchedule i; sbaSchedule i].
Proof.
  intros He Hpos. pose proof (everyday_inputs_valid i He) as Hv.
  destruct (valid_inputs_spec i Hv)
    as (p & ir & tr & Hp & Hppos & Hterm & Hir & _ & _ & Htr & _).
  rewrite Hir in Hpos. cbn [num_ltb] in Hpos. apply Qlt_bool_iff in Hpos.
  constructor; [|constructor; [|constructor]].
  - unfold sellerSchedule. rewrite Hp, Hir, Htr. fin_arith.
    set (F := Qred (p + - Qred (p * 0.2))).
    assert (HF : 0 < F) by (unfold F; rewrite !Qred_correct; lra).
    destruct (@unretired_schedule F ir (termLength i) HF Hpos ltac:(lia))
      as (ap & Pw & -> & H1 & Hap & Hpow).
    apply (@balance_inv_end (termLength i) F ir Pw HF H1 Hpow); [lia|].
    unfold for_years.
    apply (@for_loop_exact Schedule
             (balance_inv (termLength i) F (ir / 100) Pw)).
    + intros y s. now apply sellerBody_balance.
    + lia.
    + split; [lia|]. split; [reflexivity|].
      exists F. split; [reflexivity|]. cbn [Z.sub Z.add Z.opp Z.pos_sub Qpower].
      ring.
  - unfold sbaSchedule. rewrite Hp, Hir, Htr. fin_arith.
    set (F := Qred (p * 0.9)).
    assert (HF : 0 < F) by (unfold F; rewrite !Qred_correct; lra).
    destruct (@unretired_schedule F ir (termLength i) HF Hpos ltac:(lia))
      as (ap & Pw & -> & H1 & Hap & Hpow).
    apply (@balance_inv_end (termLength i) F ir Pw HF H1 Hpow); [lia|].
    unfold for_years.
    apply (@for_loop_exact Schedule
             (balance_inv (termLength i) F (ir / 100) Pw)).
    + intros y s. now apply sbaBody_balance.
    + lia.
    + split; [lia|]. split; [reflexivity|].
      exists F. split; [reflexivity|]. cbn [Z.sub Z.add Z.opp Z.pos_sub Qpower].
      ring.
Qed.

Lemma yearly_interest_never_retires_the_loan_witness :
  Forall
    (fun st =>
       List.length (rows st) = Z.to_nat (termLength defaultInputs)
       /\ num_ltb (Fin 0) (remainingBalance st) = true)
    [sellerSchedule defaultInputs; sbaSchedule defaultInputs].
Proof.
  apply (yearly_interest_never_retires_the_loan defaultInputs); reflexivity.
Defined.

(** ** The rows of the comparison table *)

Lemma collected_dealTypes
    (calculate : DealType -> DealInputs -> result DealResults)
    (inputs : DealInputs) (ds : list DealType) :
  (forall d, In d (map dealType (collected calculate inputs ds)) -> In d ds)
  /\ (NoDup ds -> NoDup (map dealType (collected calculate inputs ds)))
  /\ (List.length (collected calculate inputs ds) <= List.length ds)%nat.
Proof.
  induction ds as [|d ds (IHin & IHnd & IHlen)]; cbn [collected].
  - split; [intros d []|]. split; [intros _; constructor|apply le_n].
  - destruct (calculate d inputs) as [r|e].
    + cbn [map comparisonOf dealType In List.length]. split; [|split].
      * intros d' [<-|H]; [now left|right; now apply IHin].
      * intros Hnd. inversion Hnd as [|? ? Hnotin Hnd']; subst.
        constructor; [|now apply IHnd]. intros H. apply Hnotin.
        now apply IHin.
      * lia.
    + cbn [In List.length]. split; [|split].
      * intros d' H. right. now apply IHin.
      * intros Hnd. inversion Hnd; subst. now apply IHnd.
      * lia.
Qed.

(** The comparison table keys its rows by deal type.  After a run of
    [calculateDeals] the keys are distinct, there are at most five rows,
    and every row holds what its calculator returns on the inputs of the
    run: nothing of the comparison set of before is kept. *)
Theorem comparison_keys_are_distinct
    (calculate : DealType -> DealInputs -> result DealResults)
    (inputs : DealInputs) (page : Page) :
  let cs := comparisons (calculateDealsWith calculate inputs page) in
  NoDup (map dealType cs)
  /\ (List.length cs <= 5)%nat
  /\ forall c, In c cs -> calculate (dealType c) inputs = Ok (results c).
Proof.
  intros cs. subst cs. rewrite calculateDealsWith_comparisons.
  destruct (collected_dealTypes calculate inputs dealTypes)
    as (_ & Hnd & Hlen).
  split; [|split].
  - apply Hnd. unfold dealTypes.
    repeat constructor; cbn; intuition discriminate.
  - exact Hlen.
  - intros c Hin. apply collected_In in Hin.
    destruct Hin as (r & _ & Hc & ->). exact Hc.
Qed.

(** ** A balloon below the financed amount *)

Section CustomWholeTerm.

Variables (n : Z) (F ir ap : Q).
Variables (tr ip it inn ba : number).

Section PositiveRate.

Variable Pw : Q.
Hypothesis F_pos : 0 < F.
Hypothesis ir_pos : 0 < ir.
Hypothesis Pw_gt_1 : 1 < Pw.
Hypothesis payment : ap * (Pw - 1) == F * (ir / 100) * Pw.
Hypothesis years_below_months :
  forall y, (0 <= y <= n)%Z -> (1 + ir / 100) ^ y < Pw.

Lemma customBody_balance (y : Z) (st : Schedule) :
  (y <= n)%Z ->
  balance_inv n F (ir / 100) Pw y st ->
  balance_inv n F (ir / 100) Pw (y + 1)
    (fst (customBody n (Fin ir) tr (Fin ap) ip it inn ba y st))
  /\ (snd (customBody n (Fin ir) tr (Fin ap) ip it inn ba y st) = true
      -> y = n).
Proof.
  intros Hy Hinv. pose proof Hinv as (_ & _ & b & Hb & _).
  unfold customBody. rewrite Hb.
  destruct (y =? 1)%Z; cbn [fst snd];
    match goal with
    | |- balance_inv _ _ _ _ _
           {| rows := _ ++ [?r]; remainingBalance := _;
              cumulativeSoFar := ?c |} /\ _ =>
        destruct (@balance_inv_next n F ir ap Pw F_pos ir_pos Pw_gt_1 payment
                    years_below_months y b st r c Hy Hinv Hb) as [H1 H2]
    end; (split; [exact H1|]); rewrite H2; discriminate.
Qed.

End PositiveRate.

Section ZeroRate.

Hypothesis rate_zero : ir == 0.
Hypothesis payment_pos : 0 < ap.
Hypothesis payment_eq : F == inject_Z n * ap.

Lemma customBody_line (y : Z) (st : Schedule) :
  (y <= n)%Z ->
  line_inv n F ap y st ->
  line_inv n F ap (y + 1)
    (fst (customBody n (Fin ir) tr (Fin ap) ip it inn ba y st))
  /\ (snd (customBody n (Fin ir) tr (Fin ap) ip it inn ba y st) = true
      -> y = n).
Proof.
  intros Hyn (Hy & Hlen & b & Hb & Hbq).
  unfold customBody. rewrite Hb. fin_arith.
  set (pp := Qmin (Qred (ap + - Qred (b * Qred (ir / 100)))) b).
  assert (Hz : inject_Z (y + 1 - 1) == inject_Z (y - 1) + 1).
  { replace (y + 1 - 1)%Z with (y - 1 + 1)%Z by lia.
    rewrite inject_Z_plus. reflexivity. }
  assert (Hle : inject_Z (y - 1) + 1 <= inject_Z n).
  { change 1 with (inject_Z 1). rewrite <- inject_Z_plus, <- Zle_Qle. lia. }
  assert (Hpp : pp == ap).
  { unfold pp. rewrite !Qred_correct, rate_zero.
    setoid_replace (ap + - (b * (0 / 100)))%Q with ap by field.
    apply Q.min_l. rewrite Hbq, payment_eq. nra. }
  split.
  - unfold line_inv.
    destruct (y =? 1)%Z; cbn [fst rows remainingBalance];
      (split; [lia|]);
      (split; [rewrite length_app, Hlen; cbn [List.length]; lia|]);
      eexists; (split; [reflexivity|]);
      rewrite Qred_correct, Hpp, Hz, Hbq; ring.
  - destruct (y =? 1)%Z; cbn [snd num_leb]; intros Hbrk;
      apply Qle_bool_iff in Hbrk;
      rewrite Qred_correct, Hpp, Hbq, payment_eq in Hbrk;
      assert (Hge : inject_Z n <= inject_Z (y - 1) + 1) by nra;
      change 1 with (inject_Z 1) in Hge;
      rewrite <- inject_Z_plus, <- Zle_Qle in Hge; lia.
Qed.

End ZeroRate.

End CustomWholeTerm.

Lemma at_least_1_is_positive (x : number) :
  num_leb (Fin 1) x = true -> num_ltb (Fin 0) x = true.
Proof.
  destruct x as [q| | |]; cbn [num_leb num_ltb]; try easy.
  rewrite Qle_bool_iff, Qlt_bool_iff. lra.
Qed.

(** A balloon below the financed amount is never lost.  When the regular
    financed amount (the price less the initial payment and the balloon)
    is 1 or more, the custom schedule has exactly [termLength] rows on
    every input of an everyday scale, at a zero rate as at a positive one:
    it reaches the final year, the year whose row carries the balloon.
    The balance left is not negative. *)
Theorem custom_schedule_runs_the_whole_term (i : DealInputs) :
  everyday_inputs i = true ->
  num_leb (Fin 1) (customRegularFinancedAmount i) = true ->
  List.length (cashFlow (calculateCustom i)) = Z.to_nat (termLength i)
  /\ num_leb (Fin 0) (remainingBalance (customSchedule i)) = true.
Proof.
  intros He Hreg. pose proof (everyday_inputs_valid i He) as Hv.
  apply at_least_1_is_positive in Hreg.
  change (cashFlow (calculateCustom i)) with (rows (customSchedule i)).
  pose proof (customInitialPayment_finite i Hv) as Hip.
  pose proof (customBalloonAmount_finite i Hv) as Hba.
  destruct (valid_inputs_spec i Hv)
    as (p & ir & tr & Hp & Hpos & Hterm & Hir & Hir0 & _ & Htr & _).
  apply is_finite_Fin in Hip, Hba.
  destruct Hip as [ip Hip]. destruct Hba as [ba Hba].
  unfold customSchedule. rewrite Hreg.
  revert Hreg. unfold customRegularFinancedAmount, customFinancedAmount.
  rewrite Hip, Hba, Hp, Hir, Htr. fin_arith.
  set (F := Qred (Qred (p + - ip) + - ba)).
  cbn [num_ltb]. intros HF. apply Qlt_bool_iff in HF.
  unfold for_years.
  destruct (Qeq_bool ir 0) eqn:Ezero.
  - apply Qeq_bool_eq in Ezero.
    unfold calculateMonthlyPayment. cbn [num_eqb].
    replace (Qeq_bool ir 0) with true
      by (symmetry; now apply Qeq_bool_iff).
    unfold of_Z. rewrite num_div_Fin by (apply inject_Z_nonzero; lia).
    fin_arith.
    set (A := Qred (Qred (F / inject_Z (termLength i * 12)) * 12)).
    assert (Hn : 1 <= inject_Z (termLength i))
      by (change 1 with (inject_Z 1); rewrite <- Zle_Qle; lia).
    assert (HA : F == inject_Z (termLength i) * A).
    { unfold A. rewrite !Qred_correct, inject_Z_mult. field. lra. }
    assert (HApos : 0 < A).
    { assert (0 < inject_Z (termLength i) * A) by (rewrite <- HA; lra).
      nra. }
    match goal with
    | |- context [for_loop ?k 1%Z ?body ?s0] =>
        assert (Hloop : line_inv (termLength i) F A (termLength i + 1)
                          (for_loop k 1%Z body s0))
    end.
    { apply (@for_loop_exact Schedule (line_inv (termLength i) F A)).
      - intros y s. now apply customBody_line.
      - lia.
      - split; [lia|]. split; [reflexivity|].
        exists F. split; [reflexivity|].
        cbn [Z.sub Z.add Z.opp Z.pos_sub inject_Z]. ring. }
    destruct Hloop as (_ & Hlen & b & Hb & Hbq).
    split; [rewrite Hlen; f_equal; lia|].
    rewrite Hb. cbn [num_leb]. apply Qle_bool_iff.
    rewrite Hbq, HA. replace (termLength i + 1 - 1)%Z with (termLength i) by lia.
    lra.
  - apply Qeq_bool_neq in Ezero.
    assert (Hirpos : 0 < ir) by lra.
    destruct (@unretired_schedule F ir (termLength i) HF Hirpos ltac:(lia))
      as (ap & Pw & -> & H1 & Hap & Hpow).
    match goal with
    | |- context [for_loop ?k 1%Z ?body ?s0] =>
        assert (Hloop : balance_inv (termLength i) F (ir / 100) Pw
                          (termLength i + 1) (for_loop k 1%Z body s0))
    end.
    { apply (@for_loop_exact Schedule
               (balance_inv (termLength i) F (ir / 100) Pw)).
      - intros y s. now apply customBody_balance.
      - lia.
      - split; [lia|]. split; [reflexivity|].
        exists F. split; [reflexivity|].
        cbn [Z.sub Z.add Z.opp Z.pos_sub Qpower]. ring. }
    destruct (@balance_inv_end (termLength i) F ir Pw HF H1 Hpow _
                ltac:(lia) Hloop) as [Hlen Hltb].
    split; [exact Hlen|].
    match goal with
    | |- num_leb (Fin 0) ?x = true =>
        destruct x as [b| | |]; try discriminate Hltb; [|reflexivity]
    end.
    cbn [num_ltb num_leb] in *. apply Qlt_bool_iff in Hltb.
    apply Qle_bool_iff. lra.
Qed.

Lemma custom_schedule_runs_the_whole_term_witness :
  List.length (cashFlow (calculateCustom defaultInputs))
  = Z.to_nat (termLength defaultInputs)
  /\ num_leb (Fin 0) (remainingBalance (customSchedule defaultInputs)) = true.
Proof.
  apply (custom_schedule_runs_the_whole_term defaultInputs); reflexivity.
Defined.
